(** * tracvote: the vote store of the Trac voting plugin

    A shallow embedding of [tracvote/__init__.py] (class [VoteSystem]):
    the [votes] table, the three public methods [get_vote_count],
    [get_vote] and [set_vote], the request handler [process_request], and
    the helpers [str_count] and [normalise_resource].

    - The database is the list of the rows of [votes] in insertion order;
      each SQL statement a method sends is a function on that list, and
      the key of the table is checked by [INSERT].  One connection runs
      one statement after the other; [db.commit()] has no counterpart.
    - A Python exception is a value of the error monad [result].
    - A Python [int] is a [Z]; a Python [str] is a [string], compared
      byte by byte.
    - Of a request the model keeps the identifier [get_reporter_id]
      returns for it, its permissions and its path.
    - [normalise_resource] is modelled on strings (its [basestring]
      branch); [process_request] is modelled up to the response it sends.

    The second part embeds the rest of the handler ([match_request], the
    response of [process_request], [render_voter], [pre_process_request])
    and, from [tracvote/compat.py], the methods that keep the version of
    a schema in the [system] table.  There the URL builders of the host
    and [re.match] are parameters, a session keeps the truth value of
    each entry, and an upgrade module is a function on the database. *)

From stdpp Require Import base list strings pretty gmap.
From Stdlib Require Import Ascii ZArith Lia.

Local Open Scope Z_scope.

(** ** Exceptions *)

Inductive error : Type :=
  | IntegrityError   (* the primary key of [votes] is violated *)
  | PermissionError  (* [req.perm.require] fails *)
  | AttributeError.  (* [match.groups()] on a failed match *)

Inductive result (A : Type) : Type :=
  | Ok (a : A)
  | Raise (e : error).
Arguments Ok {A} a.
Arguments Raise {A} e.

Global Instance result_ret : MRet result := λ A a, Ok a.
Global Instance result_bind : MBind result := λ A B f m,
  match m with
  | Ok a => f a
  | Raise e => Raise e
  end.

(** ** Python values *)

Module Py.

(** Truth value of an [int]. *)
Definition truthy (n : Z) : bool := negb (n =? 0).

(** [x or y] on integers. *)
Definition or (x y : Z) : Z := if truthy x then x else y.

(** [s.lstrip(c)], [s.rstrip(c)] and [s.strip(c)] for a one-character
    argument. *)
Fixpoint lstrip (c : ascii) (s : string) : string :=
  match s with
  | "" => ""
  | String a s' => if decide (a = c) then lstrip c s' else s
  end.

Fixpoint rstrip (c : ascii) (s : string) : string :=
  match s with
  | "" => ""
  | String a s' =>
      match rstrip c s' with
      | "" => if decide (a = c) then "" else String a ""
      | r => String a r
      end
  end.

Definition strip (c : ascii) (s : string) : string := rstrip c (lstrip c s).

(** [s.startswith(p)], returning the rest of [s]. *)
Fixpoint strip_prefix (p s : string) : option string :=
  match p, s with
  | "", _ => Some s
  | String a p', String b s' =>
      if decide (a = b) then strip_prefix p' s' else None
  | String _ _, "" => None
  end.

(** What the regular expression [.*] consumes: everything up to the
    first newline. *)
Fixpoint dot_star (s : string) : string :=
  match s with
  | "" => ""
  | String a s' => if decide (a = "010"%char) then "" else String a (dot_star s')
  end.

(** ['%+i' % n]: a sign, then the decimal digits of the magnitude. *)
Definition format_plus_i (n : Z) : string :=
  String (if decide (n < 0) then "-"%char else "+"%char) (pretty (Z.abs_N n)).

End Py.

(** ** The [votes] table

    [Table('votes', key=('resource', 'username', 'vote'))] with columns
    [resource], [username] and [vote]. *)

Record row : Type := Row {
  resource : string;
  username : string;
  vote : Z
}.

Global Instance row_eq_dec : EqDecision row.
Proof. solve_decision. Defined.

Abbreviation table := (list row).

Module Sql.

(** [WHERE username=%s AND resource = %s] *)
Definition by_user_resource (u r : string) (x : row) : Prop :=
  username x = u ∧ resource x = r.

Global Instance by_user_resource_dec u r x : Decision (by_user_resource u r x).
Proof. unfold by_user_resource. apply _. Defined.

(** [WHERE resource=%s] *)
Definition by_resource (r : string) (x : row) : Prop := resource x = r.

Global Instance by_resource_dec r x : Decision (by_resource r x).
Proof. unfold by_resource. apply _. Defined.

(** [SELECT vote FROM votes WHERE username=%s AND resource = %s] *)
Definition select_vote (db : table) (u r : string) : list Z :=
  vote <$> filter (by_user_resource u r) db.

(** [cursor.fetchone()] *)
Definition fetchone {A} (rows : list A) : option A := head rows.

(** The aggregate [sum(...)]: NULL over no rows. *)
Definition sum (vs : list Z) : option Z :=
  match vs with
  | [] => None
  | _ => Some (foldr Z.add 0 vs)
  end.

(** [SELECT sum(vote) FROM votes WHERE resource=%s] *)
Definition select_sum_vote (db : table) (r : string) : option Z :=
  sum (vote <$> filter (by_resource r) db).

(** [DELETE FROM votes WHERE username=%s AND resource = %s] *)
Definition delete (db : table) (u r : string) : table :=
  filter (λ x, ¬ by_user_resource u r x) db.

(** [INSERT INTO votes (resource, username, vote) VALUES (%s, %s, %s)];
    the key of the table is the whole row.  The [vote] column is taken to
    hold any integer.  A backend rejects a value outside the range of its
    integer type ([fits_int_column] is the range all of them hold); the
    votes of the plugin, -1, 0 and +1, are far inside it. *)
Definition insert (db : table) (x : row) : result table :=
  if decide (x ∈ db) then Raise IntegrityError else Ok (db ++ [x]).

End Sql.

(** ** Requests

    What the handler reads of the host's request object: the identifier
    [get_reporter_id] derives from it, its permissions and its path. *)

Record request : Type := Request {
  reporter : string;
  perm : list string;
  path_info : string
}.

Definition get_reporter_id (req : request) : string := reporter req.

(** [req.perm.require(action)] *)
Definition require (action : string) (req : request) : result unit :=
  if decide (action ∈ perm req) then Ok () else Raise PermissionError.

(** ** VoteSystem *)

(** The string branch of [normalise_resource]. *)
Definition normalise_resource (res : string) : string :=
  let res := Py.strip "/" res in
  if decide (res = "wiki") then res +:+ "/WikiStart" else res.

Definition get_vote_count (db : table) (res : string) : Z :=
  let res := normalise_resource res in
  match Sql.select_sum_vote db res with
  | Some s => Py.or s 0
  | None => 0
  end.

Definition get_vote (db : table) (req : request) (res : string) : Z :=
  let res := normalise_resource res in
  match Sql.fetchone (Sql.select_vote db (get_reporter_id req) res) with
  | Some v => Py.or v 0
  | None => 0
  end.

Definition set_vote (db : table) (req : request) (res : string) (v : Z)
    : result table :=
  let res := normalise_resource res in
  let db := Sql.delete db (get_reporter_id req) res in
  if Py.truthy v
  then Sql.insert db (Row res (get_reporter_id req) v)
  else Ok db.

(** [path_match.match(path)]: the pattern is [/vote/], then [up] or
    [down] (first group), a slash, and the rest of the line (second
    group).  The two groups, or [None]. *)
Definition path_match (path : string) : option (string * string) :=
  match Py.strip_prefix "/vote/up/" path with
  | Some rest => Some ("up", Py.dot_star rest)
  | None =>
      match Py.strip_prefix "/vote/down/" path with
      | Some rest => Some ("down", Py.dot_star rest)
      | None => None
      end
  end.

(** [process_request] up to the response: the new table and the value of
    the local [vote] the response is built from. *)
Definition process_request (db : table) (req : request) : result (table * Z) :=
  _ ← require "VOTE_MODIFY" req;
  '(word, res) ← match path_match (path_info req) with
                 | Some g => Ok g
                 | None => Raise AttributeError
                 end;
  let res := normalise_resource res in
  let v := if decide (word = "up") then 1 else -1 in
  let old_vote := get_vote db req res in
  if decide (old_vote = v)
  then db' ← set_vote db req res 0; Ok (db', 0)
  else db' ← set_vote db req res v; Ok (db', v).

Definition str_count (db : table) (res : string) : string :=
  let v := get_vote_count db res in
  Py.format_plus_i v.

(** ** Histories of [set_vote] calls *)

Record call : Type := Call {
  call_req : request;
  call_resource : string;
  call_vote : Z
}.

(** Run the calls in order, stopping at the first exception. *)
Fixpoint replay (db : table) (calls : list call) : result table :=
  match calls with
  | [] => Ok db
  | c :: calls' =>
      db' ← set_vote db (call_req c) (call_resource c) (call_vote c);
      replay db' calls'
  end.

(** The table [upgrade_environment] creates. *)
Definition fresh : table := [].

(** ** Vocabulary of the statements *)

(** [n] copies of the character [c]. *)
Fixpoint copies (c : ascii) (n : nat) : string :=
  match n with
  | O => ""
  | S n' => String c (copies c n')
  end.

Definition starts_with (c : ascii) (s : string) : Prop := ∃ s', s = String c s'.
Definition ends_with (c : ascii) (s : string) : Prop := ∃ s', s = s' +:+ String c "".

(** The sum of a list of votes, 0 on the empty list. *)
Definition total (vs : list Z) : Z := foldr Z.add 0 vs.
Global Arguments total : simpl never.

(** The rows a user holds for a resource, and the rows of a resource. *)
Definition rows_of (db : table) (u r : string) : table :=
  filter (Sql.by_user_resource u r) db.
Definition rows_on (db : table) (r : string) : table :=
  filter (Sql.by_resource r) db.

(** At most one row for each resource and user. *)
Definition unique_keys (db : table) : Prop :=
  ∀ u r, (length (rows_of db u r) ≤ 1)%nat.

(** The vote a user holds on a normalised resource. *)
Definition stored_vote (db : table) (r u : string) : Z :=
  match rows_of db u r with
  | x :: _ => vote x
  | [] => 0
  end.

(** A request of the user [u]. *)
Definition as_user (u : string) : request :=
  {| reporter := u; perm := []; path_info := "" |}.

(** The users who called [set_vote] on the resource, each once. *)
Definition voters (calls : list call) (res : string) : list string :=
  remove_dups
    ((λ c, get_reporter_id (call_req c)) <$>
       filter (λ c, normalise_resource (call_resource c) = normalise_resource res)
              calls).

(** The request is allowed to vote and its path asks for [word] ([up] or
    [down]) on [res]. *)
Definition casts (req : request) (word res : string) : Prop :=
  "VOTE_MODIFY" ∈ perm req ∧ path_match (path_info req) = Some (word, res).

(** The vote a cast of [dir] leaves when the user's vote was [old]. *)
Definition toggled (old dir : Z) : Z := if decide (old = dir) then 0 else dir.

(** ** Scenario data *)

Definition may_vote : list string := ["VOTE_VIEW"; "VOTE_MODIFY"].

(** Alice, with a request for an up-vote and one for a down-vote of
    [ticket/5]. *)
Definition alice_up : request := Request "alice" may_vote "/vote/up/ticket/5".
Definition alice_down : request := Request "alice" may_vote "/vote/down/ticket/5".

(** * The rest of [VoteSystem]

    [match_request], the response of [process_request], [render_voter]
    and [pre_process_request]. *)

(** ** More exceptions

    The store raises the exceptions of [error]; the code below also
    raises these. *)

Inductive exn : Type :=
  | StoreError (e : error)     (* an exception of [error], passed on *)
  | KeyError                   (* a key missing from a dict *)
  | ValueError                 (* [int] on a text that is no numeral *)
  | ReError                    (* [re.error]: a pattern that does not compile *)
  | TracError (msg : string).

Inductive outcome (A : Type) : Type :=
  | Return (a : A)
  | Throw (e : exn).
Arguments Return {A} a.
Arguments Throw {A} e.

Global Instance outcome_ret : MRet outcome := λ A a, Return a.
Global Instance outcome_bind : MBind outcome := λ A B f m,
  match m with
  | Return a => f a
  | Throw e => Throw e
  end.

Definition lift {A} (r : result A) : outcome A :=
  match r with
  | Ok a => Return a
  | Raise e => Throw (StoreError e)
  end.

(** ** The host

    What the handler calls on the host and on [re]: the two URL builders
    of [req.href] and [re.match(pattern, string)], which returns whether
    the pattern matches or raises, as it does with [re.error] on a
    pattern that is no regular expression. *)

Record host : Type := Host {
  href_chrome : string → string;
  href_vote : string → string → string;
  re_match : string → string → outcome bool
}.

(** [req.session]: for each key the truth value of the entry. *)
Abbreviation session := (gmap string bool).

(** ** Class attributes *)

Definition image_map : gmap Z (string * string) :=
  <[-1 := ("aupgray.png", "adownmod.png")]>
  (<[0 := ("aupgray.png", "adowngray.png")]>
  (<[1 := ("aupmod.png", "adowngray.png")]> ∅)).

(** [image_map[vote]] *)
Definition image_map_item (v : Z) : outcome (string * string) :=
  match image_map !! v with
  | Some images => Return images
  | None => Throw KeyError
  end.

(** ** Request handling *)

(** The truth value of what [match_request] returns. *)
Definition match_request (req : request) : bool :=
  if decide ("VOTE_VIEW" ∈ perm req)
  then match path_match (path_info req) with
       | Some _ => true
       | None => false
       end
  else false.

(** How a request ends: [req.send(body)] or [req.redirect(target)]. *)
Inductive response : Type :=
  | Send (body : string)
  | Redirect (target : string).

(** [process_request] with its response; [js] is the truth value of
    [req.args.get('js')]. *)
Definition process_request_response
    (h : host) (db : table) (req : request) (js : bool)
    : outcome (table * response) :=
  '(db', v) ← lift (process_request db req);
  '(_, res) ← match path_match (path_info req) with
              | Some g => Return g
              | None => Throw (StoreError AttributeError)
              end;
  let res := normalise_resource res in
  if js
  then
    '(up, _) ← image_map_item v;
    '(_, down) ← image_map_item v;
    Return (db', Send (href_chrome h ("vote/" +:+ up) +:+ ":"
                       +:+ href_chrome h ("vote/" +:+ down) +:+ ":"
                       +:+ str_count db' res))
  else Return (db', Redirect res).

(** One arrow of the voter: its image and, when it is a link, the target. *)
Record arrow : Type := Arrow {
  arrow_src : string;
  arrow_href : option string
}.

(** What [render_voter] adds to the page: the two arrows and the count of
    the context navigation entry, whether the script was added and whether
    the warning was. *)
Record voter : Type := Voter {
  voter_up : arrow;
  voter_votes : string;
  voter_down : arrow;
  voter_script : bool;
  voter_warning : bool
}.

Definition render_voter (h : host) (db : table) (req : request) (s : session)
    : outcome (voter * session) :=
  let res := normalise_resource (path_info req) in
  let v := get_vote db req res in
  '(up, _) ← image_map_item v;
  '(_, down) ← image_map_item v;
  let up := href_chrome h ("vote/" +:+ up) in
  let down := href_chrome h ("vote/" +:+ down) in
  if decide ("VOTE_MODIFY" ∈ perm req)
  then
    let shown := default false (s !! "shown_vote_message") in
    Return (Voter (Arrow up (Some (href_vote h "up" res)))
                  (str_count db res)
                  (Arrow down (Some (href_vote h "down" res)))
                  true (negb shown),
            if shown then s else <["shown_vote_message" := true]> s)
  else
    Return (Voter (Arrow up None) (str_count db res) (Arrow down None)
                  false false,
            s).

(** The loop of [pre_process_request] over the voteable paths: the voter
    is rendered at the first pattern that matches; an exception of
    [re.match] on a pattern tried before that ends the loop. *)
Fixpoint render_at_first_match
    (h : host) (paths : list string) (db : table) (req : request) (s : session)
    : outcome (option voter * session) :=
  match paths with
  | [] => Return (None, s)
  | p :: paths' =>
      hit ← re_match h p (path_info req);
      if hit : bool
      then '(v, s') ← render_voter h db req s; Return (Some v, s')
      else render_at_first_match h paths' db req s
  end.

(** [pre_process_request]: what it renders and the session it leaves (the
    handler it returns is the one it was given). *)
Definition pre_process_request
    (h : host) (paths : list string) (db : table) (req : request) (s : session)
    : outcome (option voter * session) :=
  if decide ("VOTE_VIEW" ∈ perm req)
  then render_at_first_match h paths db req s
  else Return (None, s).

(** ** Serving requests *)

(** The table after the handler has processed the requests in order; a
    request that raises leaves the table as it was. *)
Fixpoint serve (db : table) (reqs : list request) : table :=
  match reqs with
  | [] => db
  | req :: reqs' =>
      match process_request db req with
      | Ok (db', _) => serve db' reqs'
      | Raise _ => serve db reqs'
      end
  end.

(** The path of the link to vote [word] on [res], without the base of
    the site. *)
Definition vote_path (word res : string) : string :=
  "/vote/" +:+ word +:+ "/" +:+ res.

(** The host whose [href] has an empty base and whose [re.match] tests
    for a prefix. *)
Definition plain_host : host :=
  {| href_chrome := λ p, "/chrome/" +:+ p;
     href_vote := vote_path;
     re_match := λ p s, Return (bool_decide (is_Some (Py.strip_prefix p s))) |}.

(** The values the [int] column of every backend holds: 32 bits on
    PostgreSQL and MySQL, 64 on SQLite. *)
Definition fits_int_column (v : Z) : Prop := -2 ^ 31 ≤ v < 2 ^ 31.

(** Every stored vote is +1 or -1. *)
Definition votes_in_range (db : table) : Prop :=
  ∀ x, x ∈ db → vote x = 1 ∨ vote x = -1.

(** * [compat.py]: the version of a schema in the [system] table

    The methods the module adds to [DatabaseManager] when the host lacks
    them: [get_database_version], [set_database_version], [needs_upgrade]
    and [upgrade]. *)

Module Compat.

(** The [value] column is text.  The methods only ever read it through
    [int]: a cell is a text [int] reads as [n], or a text [int] rejects. *)
Inductive cell : Type :=
  | Numeral (n : Z)
  | Text.

(** A row of [system]; the key of the table is [name]. *)
Record system_row : Type := SystemRow {
  name : string;
  value : cell
}.

Abbreviation system := (list system_row).

(** [SELECT value FROM system WHERE name=%s] *)
Definition select_value (sys : system) (nm : string) : list cell :=
  value <$> filter (λ r, name r = nm) sys.

(** [INSERT INTO system (name, value) VALUES (%s, %s)] *)
Definition insert (sys : system) (nm : string) (v : Z) : outcome system :=
  if decide (nm ∈ name <$> sys)
  then Throw (StoreError IntegrityError)
  else Return (sys ++ [SystemRow nm (Numeral v)]).

(** [UPDATE system SET value=%s WHERE name=%s] *)
Definition update (sys : system) (nm : string) (v : Z) : system :=
  (λ r, if decide (name r = nm) then SystemRow (name r) (Numeral v) else r) <$> sys.

(** The version as an [int], or [None] for [False]. *)
Definition get_database_version (sys : system) (nm : string) : outcome (option Z) :=
  match select_value sys nm with
  | [] => Return None
  | Numeral n :: _ => Return (Some n)
  | Text :: _ => Throw ValueError
  end.

Definition set_database_version (sys : system) (version : Z) (nm : string)
    : outcome system :=
  current_database_version ← get_database_version sys nm;
  match current_database_version with
  | None => insert sys nm version
  | Some _ => Return (update sys nm version)
  end.

(** [False] in a comparison or a sum is the integer 0. *)
Definition as_int (v : option Z) : Z := default 0 v.

Definition needs_upgrade (sys : system) (version : Z) (nm : string) : outcome bool :=
  dbver ← get_database_version sys nm;
  if decide (as_int dbver = version) then Return false
  else if decide (as_int dbver > version)
       then Throw (TracError ("Need to downgrade " +:+ nm +:+ "."))
       else Return true.

(** [range(a, b)] *)
Definition range (a b : Z) : list Z := seqZ a (b - a).

Section upgrade.
Context {D : Type}.

(** A database: its [system] table and the rest of it. *)
Record database : Type := Database {
  db_system : system;
  db_data : D
}.

(** [do_upgrade] of an upgrade module, as a function on the database. *)
Definition script : Type := database → outcome database.

(** A package: for each [i] its module [db<i>], if it has one. *)
Definition package : Type := Z → option script.

(** One turn of the loop of [upgrade]; [pkg] is [None] when the package
    cannot be imported. *)
Definition upgrade_step
    (pkg : option package) (pkg_name nm : string) (i : Z) (d : database)
    : outcome database :=
  match pkg with
  | None => Throw (TracError ("No upgrade package " +:+ pkg_name))
  | Some upgrades =>
      match upgrades i with
      | None => Throw (TracError ("No upgrade module db" +:+ pretty i +:+ ".py"))
      | Some do_upgrade =>
          d' ← do_upgrade d;
          sys ← set_database_version (db_system d') i nm;
          Return (Database sys (db_data d'))
      end
  end.

Fixpoint upgrade_steps
    (pkg : option package) (pkg_name nm : string) (steps : list Z) (d : database)
    : outcome database :=
  match steps with
  | [] => Return d
  | i :: steps' =>
      d' ← upgrade_step pkg pkg_name nm i d;
      upgrade_steps pkg pkg_name nm steps' d'
  end.

Definition upgrade
    (pkg : option package) (pkg_name : string) (version : Z) (nm : string)
    (d : database) : outcome database :=
  dbver ← get_database_version (db_system d) nm;
  upgrade_steps pkg pkg_name nm (range (as_int dbver + 1) (version + 1)) d.

(** The module [db<i>] exists, and its [do_upgrade] returns normally and
    leaves the entry of [system] under [nm] as it is. *)
Definition script_keeps_entry (upgrades : package) (nm : string) (i : Z) : Prop :=
  ∃ do_upgrade,
    upgrades i = Some do_upgrade
    ∧ ∀ d, ∃ d', do_upgrade d = Return d'
                 ∧ select_value (db_system d') nm = select_value (db_system d) nm.

End upgrade.

Arguments database D : clear implicits.
Arguments script D : clear implicits.
Arguments package D : clear implicits.

End Compat.

(** The images of the up and of the down arrow for a vote: an arrow is
    highlighted when the vote points its way. *)
Definition arrows (v : Z) : string * string :=
  (if decide (v = 1) then "aupmod.png" else "aupgray.png",
   if decide (v = -1) then "adownmod.png" else "adowngray.png").

(** The character [c] occurs in [s]. *)
Fixpoint contains (c : ascii) (s : string) : bool :=
  match s with
  | "" => false
  | String a s' => if decide (a = c) then true else contains c s'
  end.

Definition newline : ascii := "010"%char.

(** * Strings *)

Section strip.
Variable c : ascii.

Lemma app_cons a s t : String a s +:+ t = String a (s +:+ t).
Proof. reflexivity. Qed.

Lemma app_is_empty s t : s +:+ t = "" → s = "" ∧ t = "".
Proof.
  destruct s as [|a s]; [|by rewrite app_cons].
  change ("" +:+ t) with t. by intros ->.
Qed.

Lemma lstrip_no_start s : ¬ starts_with c (Py.lstrip c s).
Proof.
  induction s as [|a s IH]; simpl.
  - by intros [s' ?].
  - case_decide as Ha; [done|]. intros [s' [= ? _]]. done.
Qed.

Lemma lstrip_split s : ∃ n, s = copies c n +:+ Py.lstrip c s.
Proof.
  induction s as [|a s [n IH]]; simpl.
  - by exists O.
  - case_decide as Ha.
    + exists (S n). simpl. rewrite app_cons. by rewrite <-IH, Ha.
    + by exists O.
Qed.

Lemma lstrip_fixed s : ¬ starts_with c s → Py.lstrip c s = s.
Proof.
  destruct s as [|a s]; [done|]. simpl. intros Hs.
  case_decide as Ha; [|done]. destruct Hs. exists s. by rewrite Ha.
Qed.

Lemma rstrip_no_end s : ¬ ends_with c (Py.rstrip c s).
Proof.
  induction s as [|a s IH]; simpl.
  - intros [s' Hs']. symmetry in Hs'. by destruct (app_is_empty _ _ Hs') as [_ ?].
  - destruct (Py.rstrip c s) as [|b r] eqn:Hr.
    + case_decide as Ha.
      * intros [s' Hs']. symmetry in Hs'. by destruct (app_is_empty _ _ Hs') as [_ ?].
      * intros [[|a' s'] Hs'].
        -- injection Hs' as Ha'. done.
        -- rewrite app_cons in Hs'. injection Hs' as _ Hs'.
           symmetry in Hs'. by destruct (app_is_empty _ _ Hs') as [_ ?].
    + intros [[|a' s'] Hs']; [done|].
      rewrite app_cons in Hs'. injection Hs' as _ Hs'.
      apply IH. by exists s'.
Qed.

Lemma rstrip_split s : ∃ m, s = Py.rstrip c s +:+ copies c m.
Proof.
  induction s as [|a s [m IH]]; simpl.
  - by exists O.
  - destruct (Py.rstrip c s) as [|b r] eqn:Hr.
    + case_decide as Ha.
      * exists (S m). simpl. by rewrite IH at 1; rewrite Ha.
      * exists m. rewrite app_cons. by rewrite IH at 1.
    + exists m. rewrite app_cons. by rewrite IH at 1.
Qed.

Lemma rstrip_idemp s : Py.rstrip c (Py.rstrip c s) = Py.rstrip c s.
Proof.
  induction s as [|a s IH]; simpl; [done|].
  destruct (Py.rstrip c s) as [|b r] eqn:Hr.
  - case_decide as Ha; [done|]. simpl. by case_decide.
  - simpl in *. rewrite IH. done.
Qed.

Lemma rstrip_no_start s : ¬ starts_with c s → ¬ starts_with c (Py.rstrip c s).
Proof.
  destruct s as [|a s]; simpl; [done|]. intros Hs.
  assert (a ≠ c) as Ha by (intros ->; apply Hs; by exists s).
  destruct (Py.rstrip c s); [case_decide; [done|]|]; by intros [s' [= ? _]].
Qed.

Lemma strip_no_start s : ¬ starts_with c (Py.strip c s).
Proof. apply rstrip_no_start, lstrip_no_start. Qed.

Lemma strip_no_end s : ¬ ends_with c (Py.strip c s).
Proof. apply rstrip_no_end. Qed.

Lemma strip_split s : ∃ n m, s = copies c n +:+ Py.strip c s +:+ copies c m.
Proof.
  destruct (lstrip_split s) as [n Hn].
  destruct (rstrip_split (Py.lstrip c s)) as [m Hm].
  exists n, m. unfold Py.strip. by rewrite <-Hm.
Qed.

Lemma strip_idemp s : Py.strip c (Py.strip c s) = Py.strip c s.
Proof.
  unfold Py.strip at 1.
  rewrite (lstrip_fixed (Py.strip c s)) by apply strip_no_start.
  apply rstrip_idemp.
Qed.

End strip.

(** * The store *)

Lemma or_zero v : Py.or v 0 = v.
Proof. unfold Py.or, Py.truthy. destruct (Z.eqb_spec v 0); simpl; congruence. Qed.

Lemma truthy_true v : v ≠ 0 → Py.truthy v = true.
Proof. unfold Py.truthy. intros Hv. by destruct (Z.eqb_spec v 0). Qed.

Lemma total_cons v vs : total (v :: vs) = v + total vs.
Proof. reflexivity. Qed.

Section queries.
Implicit Types (db : table) (u r : string) (x : row).

Lemma delete_rows_of_same db u r : rows_of (Sql.delete db u r) u r = [].
Proof.
  unfold rows_of, Sql.delete. induction db as [|x db IH]; [done|].
  destruct (decide (Sql.by_user_resource u r x)) as [Hx|Hx].
  - rewrite filter_cons_False; [done|]. by intros ?.
  - rewrite filter_cons_True by done. by rewrite filter_cons_False.
Qed.

Lemma delete_rows_of_other db u r u' r' :
  (u', r') ≠ (u, r) → rows_of (Sql.delete db u r) u' r' = rows_of db u' r'.
Proof.
  intros Hne. unfold rows_of, Sql.delete.
  induction db as [|x db IH]; [done|].
  destruct (decide (Sql.by_user_resource u r x)) as [Hx|Hx].
  - rewrite (filter_cons_False (λ x, ¬ _)) by (by intros ?).
    rewrite IH. rewrite filter_cons_False; [done|].
    destruct Hx as [<- <-]. intros [? ?]. apply Hne. congruence.
  - rewrite (filter_cons_True (λ x, ¬ _)) by done.
    rewrite !filter_cons. by rewrite IH.
Qed.

Lemma delete_no_row db u r v : Row r u v ∉ Sql.delete db u r.
Proof.
  intros Hin. apply (filter_nil_not_elem_of _ _ _ (delete_rows_of_same db u r)) in Hin; [done|].
  by split.
Qed.

(** [set_vote] never raises: the row it inserts was deleted just
    before, so the key of the table cannot be violated. *)
Lemma set_vote_rows db req res v :
  set_vote db req res v =
    Ok (Sql.delete db (get_reporter_id req) (normalise_resource res)
        ++ if Py.truthy v
           then [Row (normalise_resource res) (get_reporter_id req) v]
           else []).
Proof.
  unfold set_vote. cbv zeta. destruct (Py.truthy v).
  - unfold Sql.insert. rewrite decide_False; [done|]. apply delete_no_row.
  - by rewrite app_nil_r.
Qed.

Lemma get_vote_rows db req res :
  get_vote db req res =
    match rows_of db (get_reporter_id req) (normalise_resource res) with
    | x :: _ => vote x
    | [] => 0
    end.
Proof.
  unfold get_vote, Sql.select_vote, Sql.fetchone. cbv zeta.
  fold (rows_of db (get_reporter_id req) (normalise_resource res)).
  destruct (rows_of _ _ _); [done|]. simpl. apply or_zero.
Qed.

Lemma get_vote_count_total db res :
  get_vote_count db res = total (vote <$> rows_on db (normalise_resource res)).
Proof.
  unfold get_vote_count, Sql.select_sum_vote, Sql.sum. cbv zeta.
  fold (rows_on db (normalise_resource res)).
  destruct (vote <$> rows_on _ _); [done|]. apply or_zero.
Qed.

Lemma rows_of_set_vote_same db req res v db' :
  set_vote db req res v = Ok db' →
  rows_of db' (get_reporter_id req) (normalise_resource res)
  = if Py.truthy v
    then [Row (normalise_resource res) (get_reporter_id req) v]
    else [].
Proof.
  rewrite set_vote_rows. intros [= <-]. unfold rows_of.
  rewrite filter_app. fold (rows_of (Sql.delete db (get_reporter_id req)
    (normalise_resource res)) (get_reporter_id req) (normalise_resource res)).
  rewrite delete_rows_of_same. simpl.
  destruct (Py.truthy v); [|done]. by rewrite filter_cons_True.
Qed.

Lemma rows_of_set_vote_other db req res v db' u' r' :
  set_vote db req res v = Ok db' →
  (u', r') ≠ (get_reporter_id req, normalise_resource res) →
  rows_of db' u' r' = rows_of db u' r'.
Proof.
  rewrite set_vote_rows. intros [= <-] Hne. unfold rows_of.
  rewrite filter_app. fold (rows_of (Sql.delete db (get_reporter_id req)
    (normalise_resource res)) u' r').
  rewrite delete_rows_of_other by done.
  destruct (Py.truthy v); [|by rewrite app_nil_r].
  rewrite filter_cons_False; [by rewrite filter_nil, app_nil_r|].
  intros [? ?]. apply Hne. simpl in *. congruence.
Qed.

End queries.

(** * One row per resource and user *)

Section invariant.
Implicit Types (db : table) (calls : list call).

Lemma unique_keys_fresh : unique_keys fresh.
Proof. intros u r. simpl. lia. Qed.

Lemma unique_keys_tail x db : unique_keys (x :: db) → unique_keys db.
Proof.
  intros Hu u r. specialize (Hu u r). unfold rows_of in *.
  rewrite filter_cons in Hu. case_decide; simpl in Hu; lia.
Qed.

Lemma set_vote_unique db req res v db' :
  unique_keys db → set_vote db req res v = Ok db' → unique_keys db'.
Proof.
  intros Hu Hset u r.
  destruct (decide ((u, r) = (get_reporter_id req, normalise_resource res)))
    as [[= -> ->]|Hne].
  - rewrite (rows_of_set_vote_same _ _ _ _ _ Hset).
    destruct (Py.truthy v); simpl; lia.
  - rewrite (rows_of_set_vote_other _ _ _ _ _ _ _ Hset Hne). apply Hu.
Qed.

Lemma replay_total db calls : ∃ db', replay db calls = Ok db'.
Proof.
  revert db. induction calls as [|c calls IH]; intros db; simpl.
  - by exists db.
  - rewrite set_vote_rows. apply IH.
Qed.

Lemma replay_unique db calls db' :
  unique_keys db → replay db calls = Ok db' → unique_keys db'.
Proof.
  revert db. induction calls as [|c calls IH]; intros db Hu; simpl.
  - by intros [= <-].
  - destruct (set_vote db (call_req c) (call_resource c) (call_vote c))
      as [db1|e] eqn:Hset; [|done].
    simpl. apply IH. by eapply set_vote_unique.
Qed.

(** Every row of a replayed table was there at the start or was
    written by one of the calls. *)
Lemma replay_rows db calls db' x :
  replay db calls = Ok db' → x ∈ db' →
  x ∈ db ∨ ∃ c, c ∈ calls
              ∧ username x = get_reporter_id (call_req c)
              ∧ resource x = normalise_resource (call_resource c).
Proof.
  revert db. induction calls as [|c calls IH]; intros db; simpl.
  - intros [= <-]. by left.
  - rewrite set_vote_rows. simpl. intros Hrun Hx.
    destruct (IH _ Hrun Hx) as [Hin|(c' & Hc' & ?)].
    + apply elem_of_app in Hin as [Hin|Hin].
      * left. unfold Sql.delete in Hin. by apply list_elem_of_filter in Hin as [_ ?].
      * right. exists c. split; [left|].
        destruct (Py.truthy (call_vote c)); [|by apply elem_of_nil in Hin].
        by apply list_elem_of_singleton in Hin as ->.
    + right. exists c'. split; [by right|done].
Qed.

End invariant.

(** * Counting *)

Section counting.
Implicit Types (db : table) (us : list string) (f g : string → Z).

Lemma total_ext f g us :
  (∀ u, u ∈ us → f u = g u) → total (f <$> us) = total (g <$> us).
Proof.
  induction us as [|b us IH]; intros Hfg; [done|].
  rewrite !fmap_cons, !total_cons. rewrite Hfg by left.
  rewrite IH; [done|]. intros u Hu. apply Hfg. by right.
Qed.

Lemma total_override g a y us :
  NoDup us → a ∈ us → g a = 0 →
  total ((λ u, if decide (u = a) then y else g u) <$> us) = y + total (g <$> us).
Proof.
  intros Hnd Ha Hga. induction Hnd as [|b us Hb Hnd IH].
  - by apply elem_of_nil in Ha.
  - rewrite !fmap_cons, !total_cons. case_decide as Hba.
    + subst b. rewrite Hga.
      rewrite (total_ext _ g); [lia|].
      intros u Hu. rewrite decide_False; [done|]. by intros ->.
    + apply elem_of_cons in Ha as [->|Ha]; [done|].
      rewrite IH by done. lia.
Qed.

Lemma total_by_user db r us :
  unique_keys db → NoDup us →
  (∀ x, x ∈ db → resource x = r → username x ∈ us) →
  total (vote <$> rows_on db r) = total (stored_vote db r <$> us).
Proof.
  intros Huniq Hnd. induction db as [|x db IH]; intros Hus.
  - clear. induction us as [|b us IH]; [done|].
    rewrite fmap_cons, total_cons, <-IH. done.
  - pose proof (unique_keys_tail _ _ Huniq) as Htail.
    assert (total (vote <$> rows_on db r) = total (stored_vote db r <$> us))
      as IH' by (apply IH; [done|]; intros y Hy; apply Hus; by right).
    unfold rows_on in *. rewrite filter_cons.
    destruct (decide (Sql.by_resource r x)) as [Hx|Hx].
    + rewrite fmap_cons, total_cons, IH'.
      assert (rows_of db (username x) r = []) as Hnone.
      { specialize (Huniq (username x) r). unfold rows_of in *.
        rewrite filter_cons_True in Huniq by done.
        destruct (filter _ db); [done|simpl in Huniq; lia]. }
      rewrite <-(total_override _ (username x)).
      * apply total_ext. intros u Hu. unfold stored_vote, rows_of.
        rewrite filter_cons. case_decide as Hua.
        -- subst u. by rewrite decide_True.
        -- rewrite decide_False; [done|]. by intros [? ?].
      * done.
      * apply Hus; [left|done].
      * unfold stored_vote. by rewrite Hnone.
    + rewrite IH'. apply total_ext. intros u Hu. unfold stored_vote, rows_of.
      rewrite filter_cons_False; [done|]. intros [? ?]. by apply Hx.
Qed.

Lemma get_vote_stored db req res :
  get_vote db req res
  = stored_vote db (normalise_resource res) (get_reporter_id req).
Proof. apply get_vote_rows. Qed.

End counting.

(** * Casting votes *)

Section casting.
Implicit Types (db : table) (req : request) (word res : string).

Lemma normalise_resource_twice res :
  normalise_resource (normalise_resource res) = normalise_resource res.
Proof.
  unfold normalise_resource at 2 3. cbv zeta. case_decide as Hw.
  - rewrite Hw. reflexivity.
  - unfold normalise_resource. cbv zeta. rewrite strip_idemp. by rewrite decide_False.
Qed.

Lemma get_vote_normalised db req res :
  get_vote db req (normalise_resource res) = get_vote db req res.
Proof. by rewrite !get_vote_rows, normalise_resource_twice. Qed.

Lemma set_vote_normalised db req res v :
  set_vote db req (normalise_resource res) v = set_vote db req res v.
Proof. by rewrite !set_vote_rows, normalise_resource_twice. Qed.

Lemma get_vote_reporter db req req' res :
  get_reporter_id req = get_reporter_id req' →
  get_vote db req res = get_vote db req' res.
Proof. intros Hid. by rewrite !get_vote_rows, Hid. Qed.

Lemma get_vote_set_vote db req res v db' :
  set_vote db req res v = Ok db' → get_vote db' req res = v.
Proof.
  intros Hset. rewrite get_vote_rows, (rows_of_set_vote_same _ _ _ _ _ Hset).
  unfold Py.truthy. by destruct (Z.eqb_spec v 0).
Qed.

(** A permitted, well-formed request never raises; it amounts to one
    [set_vote] with the toggled vote. *)
Lemma process_request_step db req word res :
  casts req word res →
  ∃ db',
    process_request db req
    = Ok (db', toggled (get_vote db req res) (if decide (word = "up") then 1 else -1))
    ∧ get_vote db' req res
      = toggled (get_vote db req res) (if decide (word = "up") then 1 else -1).
Proof.
  intros [Hperm Hpath]. unfold process_request, require.
  rewrite decide_True by done. rewrite Hpath.
  unfold mbind, result_bind. cbv beta iota zeta.
  rewrite get_vote_normalised. unfold toggled.
  set (dir := if decide (word = "up") then 1 else -1).
  destruct (decide (get_vote db req res = dir)) as [Hold|Hold].
  - rewrite set_vote_normalised.
    destruct (set_vote db req res 0) as [db'|e] eqn:Hset;
      [|by rewrite set_vote_rows in Hset].
    exists db'. split; [done|]. by apply get_vote_set_vote in Hset.
  - rewrite set_vote_normalised.
    destruct (set_vote db req res dir) as [db'|e] eqn:Hset;
      [|by rewrite set_vote_rows in Hset].
    exists db'. split; [done|]. by apply get_vote_set_vote in Hset.
Qed.

End casting.

(** * The displayed count *)

Lemma format_plus_i_pretty (n : Z) :
  Py.format_plus_i n = if decide (0 ≤ n) then "+" +:+ pretty n else pretty n.
Proof.
  unfold Py.format_plus_i. destruct n as [|p|p].
  - reflexivity.
  - rewrite decide_False by lia. rewrite decide_True by lia. reflexivity.
  - rewrite decide_True by lia. rewrite decide_False by lia. reflexivity.
Qed.

Lemma format_plus_i_inj (n m : Z) :
  Py.format_plus_i n = Py.format_plus_i m → n = m.
Proof.
  unfold Py.format_plus_i. intros [= Hsign Hdigits].
  apply (inj pretty) in Hdigits.
  repeat case_decide; try done; lia.
Qed.

(** * Properties of the vote store *)

(** C1. For every user, resource and vote [v] other than 0: after
    [set_vote(req, res, v)], which never raises, [get_vote] for the same
    resource on any request of the same user returns [v], whatever the
    table held before. *)
Theorem get_vote_after_set_vote
    (db : table) (req req' : request) (res : string) (v : Z) :
  v ≠ 0 →
  get_reporter_id req' = get_reporter_id req →
  ∃ db', set_vote db req res v = Ok db' ∧ get_vote db' req' res = v.
Proof.
  intros Hv Hid. destruct (set_vote db req res v) as [db'|e] eqn:Hset.
  - exists db'. split; [done|].
    rewrite get_vote_rows, Hid, (rows_of_set_vote_same _ _ _ _ _ Hset).
    by rewrite truthy_true.
  - by rewrite set_vote_rows in Hset.
Qed.

Lemma get_vote_after_set_vote_witness :
  1 ≠ 0
  ∧ get_reporter_id alice_down = get_reporter_id alice_up
  ∧ ∃ db', set_vote [Row "ticket/5" "alice" (-1)] alice_up "/ticket/5/" 1 = Ok db'
           ∧ get_vote db' alice_down "ticket/5" = 1.
Proof.
  split; [lia|]. split; [reflexivity|].
  apply (get_vote_after_set_vote
           [Row "ticket/5" "alice" (-1)] alice_up alice_down "/ticket/5/" 1).
  - lia.
  - reflexivity.
Defined.

(** C3. Every sequence of [set_vote] calls on a fresh table runs to the
    end, and the table it leaves holds at most one row for each resource
    and user; a single [set_vote] leaves at most one row for its own
    resource and user on any table, since it deletes before it inserts. *)
Theorem one_row_per_resource_and_user (calls : list call) :
  (∃ db, replay fresh calls = Ok db
         ∧ ∀ u r, (length (rows_of db u r) ≤ 1)%nat)
  ∧ (∀ (db : table) req res v,
       ∃ db', set_vote db req res v = Ok db'
              ∧ (length (rows_of db' (get_reporter_id req) (normalise_resource res))
                 ≤ 1)%nat).
Proof.
  split.
  - destruct (replay_total fresh calls) as [db Hdb]. exists db. split; [done|].
    apply (replay_unique fresh calls db unique_keys_fresh Hdb).
  - intros db req res v. eexists. split; [apply set_vote_rows|].
    rewrite (rows_of_set_vote_same db req res v _ (set_vote_rows db req res v)).
    destruct (Py.truthy v); simpl; lia.
Qed.

(** C4. A vote of 0 is the absence of a row: after [set_vote(req, res, v)]
    and then [set_vote(req, res, 0)], [get_vote(req, res)] is 0 and the
    table holds no row for the resource and the user. *)
Theorem set_vote_zero_clears (db : table) (req : request) (res : string) (v : Z) :
  ∃ db1 db2,
    set_vote db req res v = Ok db1
    ∧ set_vote db1 req res 0 = Ok db2
    ∧ get_vote db2 req res = 0
    ∧ rows_of db2 (get_reporter_id req) (normalise_resource res) = [].
Proof.
  destruct (set_vote db req res v) as [db1|e] eqn:H1;
    [|by rewrite set_vote_rows in H1].
  destruct (set_vote db1 req res 0) as [db2|e] eqn:H2;
    [|by rewrite set_vote_rows in H2].
  exists db1, db2. split; [done|]. split; [done|].
  pose proof (rows_of_set_vote_same _ _ _ _ _ H2) as Hrows. simpl in Hrows.
  split; [|done]. by rewrite get_vote_rows, Hrows.
Qed.

(** C5. [get_vote_count(res)] is the sum of the votes of the rows whose
    resource is the normalised [res], and it is the integer 0 when the
    table holds no such row. *)
Theorem get_vote_count_sum (db : table) (res : string) :
  get_vote_count db res
  = total (vote <$> filter (λ x, resource x = normalise_resource res) db)
  ∧ (filter (λ x, resource x = normalise_resource res) db = [] →
     get_vote_count db res = 0).
Proof.
  split.
  - apply get_vote_count_total.
  - intros Hnone. rewrite get_vote_count_total. unfold rows_on.
    unfold Sql.by_resource. by rewrite Hnone.
Qed.

Lemma get_vote_count_sum_witness :
  filter (λ x, resource x = normalise_resource "ticket/6")
         [Row "ticket/5" "alice" 1; Row "wiki/WikiStart" "bob" 1] = []
  ∧ get_vote_count [Row "ticket/5" "alice" 1; Row "wiki/WikiStart" "bob" 1] "ticket/6"
    = 0.
Proof.
  split; [reflexivity|].
  apply (get_vote_count_sum
           [Row "ticket/5" "alice" 1; Row "wiki/WikiStart" "bob" 1] "ticket/6").
  reflexivity.
Defined.

(** C6. In the table any sequence of [set_vote] calls leaves, the count of
    a resource is the sum, over the users who ever voted on it, of the
    vote [get_vote] returns for the user. *)
Theorem get_vote_count_aggregate (calls : list call) :
  ∃ db, replay fresh calls = Ok db
        ∧ ∀ res, get_vote_count db res
                 = total ((λ u, get_vote db (as_user u) res) <$> voters calls res).
Proof.
  destruct (replay_total fresh calls) as [db Hdb]. exists db. split; [done|].
  intros res. rewrite get_vote_count_total.
  rewrite (total_by_user db (normalise_resource res) (voters calls res)).
  - apply total_ext. intros u _. by rewrite get_vote_stored.
  - apply (replay_unique fresh calls db unique_keys_fresh Hdb).
  - apply NoDup_remove_dups.
  - intros x Hx Hres. apply elem_of_remove_dups.
    destruct (replay_rows _ _ _ _ Hdb Hx) as [Hin|(c & Hc & Hu & Hr)].
    + by apply elem_of_nil in Hin.
    + apply list_elem_of_fmap. exists c. split; [done|].
      apply list_elem_of_filter. split; [congruence|done].
Qed.

(** C7. [normalise_resource] removes the slashes at both ends of a string
    (what is left neither starts nor ends with a slash) and turns what is
    left, when it is [wiki], into [wiki/WikiStart]; the spellings [/wiki/],
    [wiki] and [/wiki] all give [wiki/WikiStart], so the three methods of
    the store treat them as one resource. *)
Theorem normalise_resource_strips (s : string) :
  (∃ n m, s = copies "/" n +:+ Py.strip "/" s +:+ copies "/" m)
  ∧ ¬ starts_with "/" (Py.strip "/" s)
  ∧ ¬ ends_with "/" (Py.strip "/" s)
  ∧ normalise_resource s
    = (if decide (Py.strip "/" s = "wiki") then "wiki/WikiStart" else Py.strip "/" s)
  ∧ normalise_resource "/wiki/" = "wiki/WikiStart"
  ∧ normalise_resource "wiki" = "wiki/WikiStart"
  ∧ normalise_resource "/wiki" = "wiki/WikiStart"
  ∧ ∀ (db : table) req v,
      set_vote db req "/wiki/" v = set_vote db req "wiki" v
      ∧ set_vote db req "/wiki" v = set_vote db req "wiki" v
      ∧ get_vote db req "/wiki/" = get_vote db req "wiki"
      ∧ get_vote db req "/wiki" = get_vote db req "wiki"
      ∧ get_vote_count db "/wiki/" = get_vote_count db "wiki"
      ∧ get_vote_count db "/wiki" = get_vote_count db "wiki".
Proof.
  split; [apply strip_split|].
  split; [apply strip_no_start|].
  split; [apply strip_no_end|].
  split.
  { unfold normalise_resource. cbv zeta. case_decide as Hw; [|done]. by rewrite Hw. }
  do 3 (split; [reflexivity|]).
  intros db req v. repeat split; reflexivity.
Qed.

(** C10. [normalise_resource] is idempotent on strings, and
    [wiki/WikiStart] is one of its fixed points. *)
Theorem normalise_resource_idempotent (s : string) :
  normalise_resource (normalise_resource s) = normalise_resource s
  ∧ normalise_resource "wiki/WikiStart" = "wiki/WikiStart".
Proof. split; [apply normalise_resource_twice|reflexivity]. Qed.

(** C9. The count is displayed with an explicit sign: a [+] and the
    decimal numeral of the count when it is not negative, the decimal
    numeral with its [-] when it is; [+3] for 3, [-1] for -1 and [+0]
    for 0. *)
Theorem str_count_signed (db : table) (res : string) :
  str_count db res
  = (if decide (0 ≤ get_vote_count db res)
     then "+" +:+ pretty (get_vote_count db res)
     else pretty (get_vote_count db res))
  ∧ str_count [Row "ticket/5" "alice" 1; Row "ticket/5" "bob" 1;
               Row "ticket/5" "carol" 1] "ticket/5" = "+3"
  ∧ str_count [Row "ticket/5" "bob" (-1)] "ticket/5" = "-1"
  ∧ str_count [Row "ticket/5" "alice" 1; Row "ticket/5" "bob" (-1)] "ticket/5" = "+0"
  ∧ str_count fresh res = "+0".
Proof.
  split; [apply format_plus_i_pretty|].
  do 3 (split; [reflexivity|]). reflexivity.
Qed.

(** C2. A cast toggles: when the user's stored vote is
    the requested direction the new vote is 0, otherwise it is the
    requested direction.  So two [up] casts in a row by one user on one
    resource end on 0 when the vote before them was not +1, and on +1 when
    it was; [up] and then [down] end on -1. *)
Theorem process_request_toggles (db : table) (up down : request) (res : string) :
  casts up "up" res →
  casts down "down" res →
  get_reporter_id up = get_reporter_id down →
  (∃ db1, process_request db up = Ok (db1, toggled (get_vote db up res) 1)
          ∧ get_vote db1 up res = toggled (get_vote db up res) 1)
  ∧ (∃ db1, process_request db down = Ok (db1, toggled (get_vote db down res) (-1))
            ∧ get_vote db1 down res = toggled (get_vote db down res) (-1))
  ∧ (∃ db1 v1 db2 v2,
       process_request db up = Ok (db1, v1)
       ∧ process_request db1 up = Ok (db2, v2)
       ∧ get_vote db2 up res = if decide (get_vote db up res = 1) then 1 else 0)
  ∧ (∃ db1 v1 db2 v2,
       process_request db up = Ok (db1, v1)
       ∧ process_request db1 down = Ok (db2, v2)
       ∧ get_vote db2 up res = -1).
Proof.
  intros Hup Hdown Hid.
  destruct (process_request_step db up "up" res Hup) as (db1 & Hrun1 & Hget1).
  simpl in Hrun1, Hget1.
  split; [by exists db1|].
  split; [apply (process_request_step db down "down" res Hdown)|].
  split.
  - destruct (process_request_step db1 up "up" res Hup) as (db2 & Hrun2 & Hget2).
    simpl in Hrun2, Hget2.
    eexists db1, _, db2, _. split; [exact Hrun1|]. split; [exact Hrun2|].
    rewrite Hget2, Hget1. unfold toggled. repeat case_decide; lia.
  - destruct (process_request_step db1 down "down" res Hdown) as (db2 & Hrun2 & Hget2).
    simpl in Hrun2, Hget2.
    eexists db1, _, db2, _. split; [exact Hrun1|]. split; [exact Hrun2|].
    rewrite (get_vote_reporter db2 up down res Hid), Hget2.
    rewrite <-(get_vote_reporter db1 up down res Hid), Hget1.
    unfold toggled. repeat case_decide; lia.
Qed.

Lemma process_request_toggles_witness :
  casts alice_up "up" "ticket/5"
  ∧ casts alice_down "down" "ticket/5"
  ∧ get_reporter_id alice_up = get_reporter_id alice_down
  ∧ (∃ db1, process_request fresh alice_up = Ok (db1, 1)
            ∧ get_vote db1 alice_up "ticket/5" = 1)
  ∧ (∃ db1, process_request fresh alice_down = Ok (db1, -1)
            ∧ get_vote db1 alice_down "ticket/5" = -1)
  ∧ (∃ db1 v1 db2 v2,
       process_request fresh alice_up = Ok (db1, v1)
       ∧ process_request db1 alice_up = Ok (db2, v2)
       ∧ get_vote db2 alice_up "ticket/5" = 0)
  ∧ (∃ db1 v1 db2 v2,
       process_request fresh alice_up = Ok (db1, v1)
       ∧ process_request db1 alice_down = Ok (db2, v2)
       ∧ get_vote db2 alice_up "ticket/5" = -1).
Proof.
  assert (casts alice_up "up" "ticket/5") as Hup.
  { split; [|reflexivity]. apply list_elem_of_In. simpl. auto. }
  assert (casts alice_down "down" "ticket/5") as Hdown.
  { split; [|reflexivity]. apply list_elem_of_In. simpl. auto. }
  split; [exact Hup|]. split; [exact Hdown|]. split; [reflexivity|].
  apply (process_request_toggles fresh alice_up alice_down "ticket/5" Hup Hdown).
  reflexivity.
Defined.

(** Two [up] casts in a row need not end on 0.  Alice casts [up] three
    times on a fresh table: the first leaves her vote at +1, and the two
    casts that follow end on +1 again. *)
Lemma up_twice_ends_on_up :
  ∃ db1 db2 db3,
    process_request fresh alice_up = Ok (db1, 1)
    ∧ get_vote db1 alice_up "ticket/5" = 1
    ∧ process_request db1 alice_up = Ok (db2, 0)
    ∧ process_request db2 alice_up = Ok (db3, 1)
    ∧ get_vote db3 alice_up "ticket/5" = 1
    ∧ get_vote db3 alice_up "ticket/5" ≠ 0.
Proof.
  exists [Row "ticket/5" "alice" 1], [], [Row "ticket/5" "alice" 1].
  repeat split; try reflexivity. vm_compute. discriminate.
Qed.

(** * Vote values *)

(** C8. [set_vote] does not check the value: for a vote outside -1, 0
    and +1 that the [int] column holds it does not raise, it replaces the
    row of the user with one holding that value, and [get_vote] returns
    it. *)
Theorem set_vote_stores_any_value (db : table) (req : request) (res : string) (v : Z) :
  v < -1 ∨ 1 < v →
  fits_int_column v →
  ∃ db', set_vote db req res v = Ok db'
         ∧ rows_of db' (get_reporter_id req) (normalise_resource res)
           = [Row (normalise_resource res) (get_reporter_id req) v]
         ∧ get_vote db' req res = v.
Proof.
  intros Hv _. destruct (set_vote db req res v) as [db'|e] eqn:Hset;
    [|by rewrite set_vote_rows in Hset].
  exists db'. split; [done|]. split.
  - rewrite (rows_of_set_vote_same _ _ _ _ _ Hset). by rewrite truthy_true by lia.
  - by apply get_vote_set_vote in Hset.
Qed.

Lemma set_vote_stores_any_value_witness :
  (5 < -1 ∨ 1 < 5)
  ∧ fits_int_column 5
  ∧ ∃ db', set_vote [Row "ticket/5" "alice" 1] alice_up "ticket/5" 5 = Ok db'
         ∧ rows_of db' "alice" "ticket/5" = [Row "ticket/5" "alice" 5]
         ∧ get_vote db' alice_up "ticket/5" = 5.
Proof.
  assert (fits_int_column 5) as Hfits by (unfold fits_int_column; lia).
  split; [right; lia|]. split; [exact Hfits|].
  apply (set_vote_stores_any_value [Row "ticket/5" "alice" 1] alice_up "ticket/5" 5).
  - right. lia.
  - exact Hfits.
Defined.

(** A vote of 5 is not rejected: [set_vote] returns normally, the table
    changes and holds a row with the value 5, which [get_vote] returns. *)
Lemma set_vote_accepts_five :
  set_vote fresh alice_up "ticket/5" 5 = Ok [Row "ticket/5" "alice" 5]
  ∧ [Row "ticket/5" "alice" 5] ≠ fresh
  ∧ get_vote [Row "ticket/5" "alice" 5] alice_up "ticket/5" = 5.
Proof. repeat split; try reflexivity. discriminate. Qed.


(** * More on the store *)

Section store_more.
Implicit Types (db : table) (req : request) (res u r : string) (v : Z).

Lemma get_vote_count_set_vote_other db req res v db' res' :
  set_vote db req res v = Ok db' →
  normalise_resource res' ≠ normalise_resource res →
  get_vote_count db' res' = get_vote_count db res'.
Proof.
  rewrite set_vote_rows. intros [= <-] Hne. rewrite !get_vote_count_total.
  unfold rows_on, Sql.delete. rewrite filter_app.
  assert (filter (Sql.by_resource (normalise_resource res'))
            (if Py.truthy v
             then [Row (normalise_resource res) (get_reporter_id req) v]
             else []) = []) as ->.
  { destruct (Py.truthy v); [|done]. rewrite filter_cons_False; [done|].
    unfold Sql.by_resource. simpl. congruence. }
  rewrite app_nil_r. f_equal. f_equal.
  induction db as [|x db IH]; [done|].
  destruct (decide (Sql.by_user_resource (get_reporter_id req)
                      (normalise_resource res) x)) as [Hx|Hx].
  - rewrite (filter_cons_False (λ x, ¬ _)) by (by intros ?).
    rewrite IH. rewrite filter_cons_False; [done|].
    destruct Hx as [_ Hx]. unfold Sql.by_resource. congruence.
  - rewrite (filter_cons_True (λ x, ¬ _)) by done.
    rewrite !filter_cons. by rewrite IH.
Qed.

(** Deleting the rows of a user takes their votes off the sum. *)
Lemma total_rows_on_delete db u r :
  total (vote <$> rows_on db r)
  = total (vote <$> rows_on (Sql.delete db u r) r) + total (vote <$> rows_of db u r).
Proof.
  unfold rows_on, rows_of, Sql.delete. induction db as [|x db IH]; [done|].
  destruct (decide (Sql.by_user_resource u r x)) as [Hx|Hx].
  - rewrite (filter_cons_False (λ x, ¬ _)) by (by intros ?).
    rewrite (filter_cons_True (Sql.by_user_resource u r)) by done.
    rewrite (filter_cons_True (Sql.by_resource r)) by (by destruct Hx).
    rewrite !fmap_cons, !total_cons. lia.
  - rewrite (filter_cons_True (λ x, ¬ _)) by done.
    rewrite (filter_cons_False (Sql.by_user_resource u r)) by done.
    rewrite !filter_cons. case_decide; [|done].
    rewrite !fmap_cons, !total_cons. lia.
Qed.

Lemma total_rows_of_unique db u r :
  unique_keys db → total (vote <$> rows_of db u r) = stored_vote db r u.
Proof.
  intros Hu. specialize (Hu u r). unfold stored_vote.
  destruct (rows_of db u r) as [|x [|y l]]; [done| |simpl in Hu; lia].
  rewrite fmap_cons, total_cons. change (total (vote <$> [])) with 0. lia.
Qed.

Lemma delete_fixed db u r : rows_of db u r = [] → Sql.delete db u r = db.
Proof.
  unfold rows_of, Sql.delete. induction db as [|x db IH]; [done|].
  rewrite filter_cons. case_decide as Hx; [done|]. intros Hnone.
  rewrite filter_cons_True by done. by rewrite IH.
Qed.

Lemma delete_app db1 db2 u r :
  Sql.delete (db1 ++ db2) u r = Sql.delete db1 u r ++ Sql.delete db2 u r.
Proof. apply filter_app. Qed.

Lemma delete_comm db u r u' r' :
  Sql.delete (Sql.delete db u r) u' r' = Sql.delete (Sql.delete db u' r') u r.
Proof.
  unfold Sql.delete. rewrite !list_filter_filter. apply list_filter_iff. tauto.
Qed.

End store_more.

Section store_compose.
Implicit Types (db : table) (req : request) (res u r : string) (v : Z).

Lemma delete_new_row_same req res v :
  Sql.delete (if Py.truthy v
              then [Row (normalise_resource res) (get_reporter_id req) v]
              else []) (get_reporter_id req) (normalise_resource res) = [].
Proof.
  destruct (Py.truthy v); [|done]. unfold Sql.delete.
  rewrite filter_cons_False; [done|]. intros Hno. by apply Hno.
Qed.

Lemma delete_new_row_other req res v u r :
  (u, r) ≠ (get_reporter_id req, normalise_resource res) →
  Sql.delete (if Py.truthy v
              then [Row (normalise_resource res) (get_reporter_id req) v]
              else []) u r
  = if Py.truthy v
    then [Row (normalise_resource res) (get_reporter_id req) v]
    else [].
Proof.
  intros Hne. destruct (Py.truthy v); [|done]. unfold Sql.delete.
  rewrite filter_cons_True; [done|]. intros [? ?]. simpl in *. apply Hne. congruence.
Qed.

Lemma set_vote_twice db req res v db' :
  set_vote db req res v = Ok db' → set_vote db' req res v = Ok db'.
Proof.
  rewrite set_vote_rows. intros [= <-]. rewrite set_vote_rows. f_equal.
  rewrite delete_app, delete_new_row_same, app_nil_r.
  rewrite (delete_fixed (Sql.delete _ _ _)) by apply delete_rows_of_same. done.
Qed.

Lemma total_app (vs ws : list Z) : total (vs ++ ws) = total vs + total ws.
Proof.
  induction vs as [|a vs IH]; [done|].
  rewrite <-app_comm_cons, !total_cons, IH. lia.
Qed.

End store_compose.

(** * Further properties of the store *)

(** X1. A [set_vote] on one resource leaves the count of every other
    resource, and every user's vote on it, as they were. *)
Theorem set_vote_keeps_other_resources
    (db : table) (req : request) (res res' : string) (v : Z) :
  normalise_resource res' ≠ normalise_resource res →
  ∃ db', set_vote db req res v = Ok db'
         ∧ get_vote_count db' res' = get_vote_count db res'
         ∧ ∀ req', get_vote db' req' res' = get_vote db req' res'.
Proof.
  intros Hne. destruct (set_vote db req res v) as [db'|e] eqn:Hset;
    [|by rewrite set_vote_rows in Hset].
  exists db'. split; [done|]. split.
  - by apply (get_vote_count_set_vote_other db req res v).
  - intros req'. rewrite !get_vote_rows.
    rewrite (rows_of_set_vote_other _ _ _ _ _ _ _ Hset); [done|]. congruence.
Qed.

Lemma set_vote_keeps_other_resources_witness :
  normalise_resource "wiki" ≠ normalise_resource "ticket/5"
  ∧ ∃ db', set_vote [Row "wiki/WikiStart" "alice" 1] alice_up "ticket/5" (-1) = Ok db'
           ∧ get_vote_count db' "wiki" = 1
           ∧ ∀ req', get_vote db' req' "wiki"
                     = get_vote [Row "wiki/WikiStart" "alice" 1] req' "wiki".
Proof.
  split; [discriminate|].
  apply (set_vote_keeps_other_resources
           [Row "wiki/WikiStart" "alice" 1] alice_up "ticket/5" "wiki" (-1)).
  discriminate.
Defined.

(** X2. A [set_vote] of one user leaves the votes of every other user,
    on every resource, as they were. *)
Theorem set_vote_keeps_other_users
    (db : table) (req req' : request) (res : string) (v : Z) :
  get_reporter_id req' ≠ get_reporter_id req →
  ∃ db', set_vote db req res v = Ok db'
         ∧ ∀ res', get_vote db' req' res' = get_vote db req' res'.
Proof.
  intros Hne. destruct (set_vote db req res v) as [db'|e] eqn:Hset;
    [|by rewrite set_vote_rows in Hset].
  exists db'. split; [done|]. intros res'. rewrite !get_vote_rows.
  rewrite (rows_of_set_vote_other _ _ _ _ _ _ _ Hset); [done|]. congruence.
Qed.

Lemma set_vote_keeps_other_users_witness :
  get_reporter_id (as_user "bob") ≠ get_reporter_id alice_up
  ∧ ∃ db', set_vote [Row "ticket/5" "bob" 1] alice_up "ticket/5" (-1) = Ok db'
           ∧ ∀ res', get_vote db' (as_user "bob") res'
                     = get_vote [Row "ticket/5" "bob" 1] (as_user "bob") res'.
Proof.
  split; [discriminate|].
  apply (set_vote_keeps_other_users
           [Row "ticket/5" "bob" 1] alice_up (as_user "bob") "ticket/5" (-1)).
  discriminate.
Defined.

(** X3. On a table with at most one row for each resource and user,
    [set_vote(req, res, v)] moves the count of the resource by the
    difference between [v] and the vote the user held. *)
Theorem set_vote_moves_count (db : table) (req : request) (res : string) (v : Z) :
  unique_keys db →
  ∃ db', set_vote db req res v = Ok db'
         ∧ get_vote_count db' res
           = get_vote_count db res - get_vote db req res + v.
Proof.
  intros Hu. eexists. split; [apply set_vote_rows|].
  rewrite !get_vote_count_total, get_vote_stored.
  rewrite (total_rows_on_delete db (get_reporter_id req) (normalise_resource res)).
  rewrite (total_rows_of_unique db _ _ Hu).
  unfold rows_on at 1. rewrite filter_app, fmap_app, total_app.
  fold (rows_on (Sql.delete db (get_reporter_id req) (normalise_resource res))
          (normalise_resource res)).
  unfold Py.truthy. destruct (Z.eqb_spec v 0) as [->|Hv]; simpl.
  - change (total []) with 0. lia.
  - rewrite filter_cons_True by done. rewrite fmap_cons, total_cons.
    change (total (vote <$> filter _ [])) with 0. simpl. lia.
Qed.

Lemma set_vote_moves_count_witness :
  unique_keys [Row "ticket/5" "alice" 1]
  ∧ ∃ db', set_vote [Row "ticket/5" "alice" 1] alice_down "ticket/5" (-1) = Ok db'
           ∧ get_vote_count db' "ticket/5" = 1 - 1 + -1.
Proof.
  assert (unique_keys [Row "ticket/5" "alice" 1]) as Hu.
  { intros u r. unfold rows_of. rewrite filter_cons. case_decide; simpl; lia. }
  split; [exact Hu|].
  apply (set_vote_moves_count [Row "ticket/5" "alice" 1] alice_down "ticket/5" (-1) Hu).
Defined.

(** X4. Repeating a [set_vote] call changes nothing: the second call
    leaves the table the first one left. *)
Theorem set_vote_idempotent (db : table) (req : request) (res : string) (v : Z) :
  ∃ db', set_vote db req res v = Ok db' ∧ set_vote db' req res v = Ok db'.
Proof.
  eexists. split; [apply set_vote_rows|].
  apply (set_vote_twice db), set_vote_rows.
Qed.

(** X5. Clearing a vote that is not there is a no-op: when the table has
    no row for the user and the resource, [set_vote(req, res, 0)] returns
    normally and leaves the table as it was. *)
Theorem set_vote_zero_without_row (db : table) (req : request) (res : string) :
  rows_of db (get_reporter_id req) (normalise_resource res) = [] →
  set_vote db req res 0 = Ok db.
Proof.
  intros Hnone. rewrite set_vote_rows. simpl. rewrite app_nil_r.
  by rewrite delete_fixed.
Qed.

Lemma set_vote_zero_without_row_witness :
  rows_of [Row "ticket/5" "bob" 1] (get_reporter_id alice_up)
          (normalise_resource "ticket/5") = []
  ∧ set_vote [Row "ticket/5" "bob" 1] alice_up "ticket/5" 0
    = Ok [Row "ticket/5" "bob" 1].
Proof.
  split; [reflexivity|].
  apply (set_vote_zero_without_row [Row "ticket/5" "bob" 1] alice_up "ticket/5").
  reflexivity.
Defined.

Lemma rows_of_new_row (req : request) (res : string) (v : Z) (u r : string) :
  rows_of (if Py.truthy v
           then [Row (normalise_resource res) (get_reporter_id req) v]
           else []) u r
  = if decide ((u, r) = (get_reporter_id req, normalise_resource res))
    then (if Py.truthy v
          then [Row (normalise_resource res) (get_reporter_id req) v]
          else [])
    else [].
Proof.
  unfold rows_of. destruct (Py.truthy v); [|by case_decide].
  case_decide as Hk.
  - injection Hk as -> ->. by rewrite filter_cons_True.
  - rewrite filter_cons_False; [done|]. intros [? ?]. simpl in *. apply Hk. congruence.
Qed.

(** X6. Two [set_vote] calls on different keys (a different user or a
    different resource) can be made in either order: both orders return
    normally and leave the same rows, the same vote for every user and
    the same count for every resource. *)
Theorem set_vote_commutes
    (db : table) (a b : request) (ra rb : string) (va vb : Z) :
  (get_reporter_id a, normalise_resource ra)
  ≠ (get_reporter_id b, normalise_resource rb) →
  ∃ d1 d2 d1' d2',
    set_vote db a ra va = Ok d1 ∧ set_vote d1 b rb vb = Ok d2
    ∧ set_vote db b rb vb = Ok d1' ∧ set_vote d1' a ra va = Ok d2'
    ∧ d2 ≡ₚ d2'
    ∧ (∀ req res, get_vote d2 req res = get_vote d2' req res)
    ∧ (∀ res, get_vote_count d2 res = get_vote_count d2' res).
Proof.
  intros Hne. do 4 eexists.
  split; [apply set_vote_rows|]. split; [apply set_vote_rows|].
  split; [apply set_vote_rows|]. split; [apply set_vote_rows|].
  rewrite !delete_app.
  rewrite (delete_new_row_other a ra va) by (intros Heq; by apply Hne).
  rewrite (delete_new_row_other b rb vb) by done.
  rewrite (delete_comm db (get_reporter_id b)).
  set (X := Sql.delete (Sql.delete db _ _) _ _).
  set (A := if Py.truthy va then _ else _).
  set (B := if Py.truthy vb then _ else _).
  split; [|split].
  - rewrite <-!app_assoc. apply Permutation_app_head, Permutation_app_comm.
  - intros req res. rewrite !get_vote_rows. unfold rows_of.
    rewrite !filter_app.
    fold (rows_of A (get_reporter_id req) (normalise_resource res)).
    fold (rows_of B (get_reporter_id req) (normalise_resource res)).
    unfold A, B. rewrite !rows_of_new_row.
    repeat case_decide; rewrite ?app_nil_r; try done.
    exfalso. apply Hne. congruence.
  - intros res. rewrite !get_vote_count_total. unfold rows_on.
    rewrite !filter_app, !fmap_app, !total_app. lia.
Qed.

Lemma set_vote_commutes_witness :
  (get_reporter_id alice_up, normalise_resource "ticket/5")
  ≠ (get_reporter_id (as_user "bob"), normalise_resource "ticket/5")
  ∧ ∃ d1 d2 d1' d2',
      set_vote fresh alice_up "ticket/5" 1 = Ok d1
      ∧ set_vote d1 (as_user "bob") "ticket/5" (-1) = Ok d2
      ∧ set_vote fresh (as_user "bob") "ticket/5" (-1) = Ok d1'
      ∧ set_vote d1' alice_up "ticket/5" 1 = Ok d2'
      ∧ d2 ≡ₚ d2'
      ∧ (∀ req res, get_vote d2 req res = get_vote d2' req res)
      ∧ (∀ res, get_vote_count d2 res = get_vote_count d2' res).
Proof.
  split; [discriminate|].
  apply (set_vote_commutes fresh alice_up (as_user "bob") "ticket/5" "ticket/5" 1 (-1)).
  discriminate.
Defined.

(** * Paths *)

Section paths.
Implicit Types (p s r word res rest : string).

Lemma strip_prefix_app p s : Py.strip_prefix p (p +:+ s) = Some s.
Proof.
  induction p as [|a p IH]; [reflexivity|].
  rewrite app_cons. simpl. by rewrite decide_True.
Qed.

Lemma strip_prefix_Some p s rest : Py.strip_prefix p s = Some rest → s = p +:+ rest.
Proof.
  revert s. induction p as [|a p IH]; intros s; simpl.
  - destruct s; intros [= <-]; reflexivity.
  - destruct s as [|b s]; [done|]. case_decide as Hab; [|done].
    intros Hs. rewrite app_cons, <-(IH _ Hs). by subst.
Qed.

Lemma dot_star_fixed r : contains newline r = false → Py.dot_star r = r.
Proof.
  induction r as [|a r IH]; simpl; [done|]. unfold newline in *.
  case_decide; [done|]. intros Hr. by rewrite IH.
Qed.

Lemma dot_star_no_newline s : contains newline (Py.dot_star s) = false.
Proof.
  induction s as [|a s IH]; simpl; [done|]. unfold newline in *.
  case_decide as Ha; [done|]. simpl. by rewrite decide_False.
Qed.

Lemma dot_star_split s :
  ∃ rest, s = Py.dot_star s +:+ rest ∧ (rest = "" ∨ starts_with newline rest).
Proof.
  induction s as [|a s (rest & Hs & Hrest)]; simpl.
  - exists "". by split; [|left].
  - case_decide as Ha.
    + exists (String a s). split; [done|]. right. exists s. by rewrite Ha.
    + exists rest. split; [|done]. rewrite app_cons. by rewrite <-Hs.
Qed.

Lemma app_assoc_string p s r : (p +:+ s) +:+ r = p +:+ (s +:+ r).
Proof.
  induction p as [|a p IH]; [done|]. by rewrite !app_cons, IH.
Qed.

Lemma path_match_Some_inv p word res :
  path_match p = Some (word, res) →
  (word = "up" ∨ word = "down")
  ∧ contains newline res = false
  ∧ ∃ rest, p = vote_path word res +:+ rest
            ∧ (rest = "" ∨ starts_with newline rest).
Proof.
  unfold path_match.
  destruct (Py.strip_prefix "/vote/up/" p) as [tail|] eqn:Hup.
  - intros [= <- <-]. split; [by left|]. split; [apply dot_star_no_newline|].
    destruct (dot_star_split tail) as (rest & Htail & Hrest).
    exists rest. split; [|done]. apply strip_prefix_Some in Hup.
    change (vote_path "up" (Py.dot_star tail)) with ("/vote/up/" +:+ Py.dot_star tail).
    by rewrite app_assoc_string, <-Htail.
  - destruct (Py.strip_prefix "/vote/down/" p) as [tail|] eqn:Hdown; [|done].
    intros [= <- <-]. split; [by right|]. split; [apply dot_star_no_newline|].
    destruct (dot_star_split tail) as (rest & Htail & Hrest).
    exists rest. split; [|done]. apply strip_prefix_Some in Hdown.
    change (vote_path "down" (Py.dot_star tail)) with ("/vote/down/" +:+ Py.dot_star tail).
    by rewrite app_assoc_string, <-Htail.
Qed.

Lemma path_match_vote_path word res :
  word = "up" ∨ word = "down" → contains newline res = false →
  path_match (vote_path word res) = Some (word, res).
Proof.
  intros [-> | ->] Hres; unfold path_match.
  - change (vote_path "up" res) with ("/vote/up/" +:+ res).
    by rewrite strip_prefix_app, dot_star_fixed.
  - change (vote_path "down" res) with ("/vote/down/" +:+ res).
    assert (Py.strip_prefix "/vote/up/" ("/vote/down/" +:+ res) = None) as ->
      by reflexivity.
    by rewrite strip_prefix_app, dot_star_fixed.
Qed.

End paths.

(** X7. The pattern of the handler reads back the links to it: for [up]
    or [down] and a resource without a newline, the path
    [/vote/<word>/<resource>] matches, with the word and the resource as
    its two groups. *)
Theorem path_match_reads_vote_path (word res : string) :
  word = "up" ∨ word = "down" →
  contains newline res = false →
  path_match (vote_path word res) = Some (word, res).
Proof. apply path_match_vote_path. Qed.

Lemma path_match_reads_vote_path_witness :
  ("down" = "up" ∨ "down" = "down")
  ∧ contains newline "wiki/WikiStart" = false
  ∧ path_match (vote_path "down" "wiki/WikiStart") = Some ("down", "wiki/WikiStart").
Proof.
  split; [by right|]. split; [reflexivity|].
  apply (path_match_reads_vote_path "down" "wiki/WikiStart"); [by right|reflexivity].
Defined.

(** X8. Whatever the pattern matches is such a link: the first group is
    [up] or [down], the second holds no newline, and the path is
    [/vote/<word>/<resource>], followed by nothing or by a newline and
    more. *)
Theorem path_match_sound (p word res : string) :
  path_match p = Some (word, res) →
  (word = "up" ∨ word = "down")
  ∧ contains newline res = false
  ∧ ∃ rest, p = vote_path word res +:+ rest
            ∧ (rest = "" ∨ starts_with newline rest).
Proof. apply path_match_Some_inv. Qed.

Lemma path_match_sound_witness :
  path_match "/vote/up/ticket/5" = Some ("up", "ticket/5")
  ∧ ("up" = "up" ∨ "up" = "down")
  ∧ contains newline "ticket/5" = false
  ∧ ∃ rest, "/vote/up/ticket/5" = vote_path "up" "ticket/5" +:+ rest
            ∧ (rest = "" ∨ starts_with newline rest).
Proof.
  split; [reflexivity|].
  apply (path_match_sound "/vote/up/ticket/5" "up" "ticket/5"). reflexivity.
Defined.

(** * The handler *)

Section handler.
Implicit Types (db : table) (req : request) (word res : string) (h : host).

Lemma process_request_casts db req word res :
  casts req word res →
  process_request db req
  = Ok (Sql.delete db (get_reporter_id req) (normalise_resource res)
        ++ (if Py.truthy (toggled (get_vote db req res)
                            (if decide (word = "up") then 1 else -1))
            then [Row (normalise_resource res) (get_reporter_id req)
                      (toggled (get_vote db req res)
                         (if decide (word = "up") then 1 else -1))]
            else []),
        toggled (get_vote db req res) (if decide (word = "up") then 1 else -1)).
Proof.
  intros [Hperm Hpath]. unfold process_request, require.
  rewrite decide_True by done. rewrite Hpath.
  unfold mbind, result_bind. cbv beta iota zeta.
  rewrite get_vote_normalised. unfold toggled.
  case_decide; rewrite set_vote_normalised, set_vote_rows; done.
Qed.

Lemma process_request_no_perm db req :
  "VOTE_MODIFY" ∉ perm req → process_request db req = Raise PermissionError.
Proof.
  intros Hperm. unfold process_request, require. by rewrite decide_False.
Qed.

Lemma process_request_no_match db req :
  "VOTE_MODIFY" ∈ perm req → path_match (path_info req) = None →
  process_request db req = Raise AttributeError.
Proof.
  intros Hperm Hpath. unfold process_request, require.
  rewrite decide_True by done. by rewrite Hpath.
Qed.

Lemma toggled_cases old word :
  let v := toggled old (if decide (word = "up") then 1 else -1) in
  v = -1 ∨ v = 0 ∨ v = 1.
Proof. unfold toggled. repeat case_decide; lia. Qed.

Lemma image_map_item_arrows v :
  v = -1 ∨ v = 0 ∨ v = 1 → image_map_item v = Return (arrows v).
Proof. by intros [-> | [-> | ->]]. Qed.

Lemma image_map_item_missing v :
  v < -1 ∨ 1 < v → image_map_item v = Throw KeyError.
Proof.
  intros Hv. unfold image_map_item, image_map.
  rewrite !lookup_insert_ne by lia. by rewrite lookup_empty.
Qed.

End handler.

(** X9. What [process_request] can do.  It returns normally exactly when
    the request has [VOTE_MODIFY] and its path matches, and then it has
    made one [set_vote] call with the toggled vote.  Without [VOTE_MODIFY]
    it raises [PermissionError], whatever the path; with it and a path
    that does not match, [AttributeError].  It raises nothing else: the
    key of the table is never violated. *)
Theorem process_request_outcome (db : table) (req : request) :
  match process_request db req with
  | Ok (db', v) =>
      "VOTE_MODIFY" ∈ perm req
      ∧ ∃ word res,
          path_match (path_info req) = Some (word, res)
          ∧ v = toggled (get_vote db req res) (if decide (word = "up") then 1 else -1)
          ∧ set_vote db req res v = Ok db'
  | Raise e =>
      (e = PermissionError ∧ "VOTE_MODIFY" ∉ perm req)
      ∨ (e = AttributeError ∧ "VOTE_MODIFY" ∈ perm req
         ∧ path_match (path_info req) = None)
  end.
Proof.
  destruct (decide ("VOTE_MODIFY" ∈ perm req)) as [Hperm|Hperm].
  - destruct (path_match (path_info req)) as [[word res]|] eqn:Hpath.
    + rewrite (process_request_casts db req word res) by done.
      split; [done|]. exists word, res. split; [done|]. split; [done|].
      apply set_vote_rows.
    + rewrite process_request_no_match by done. right. done.
  - rewrite process_request_no_perm by done. left. done.
Qed.

(** X10. A request [match_request] accepts is processed without an
    exception when it has [VOTE_MODIFY], and raises [PermissionError]
    when it has only [VOTE_VIEW]. *)
Theorem match_request_then_process_request (db : table) (req : request) :
  match_request req = true →
  if decide ("VOTE_MODIFY" ∈ perm req)
  then ∃ db' v, process_request db req = Ok (db', v)
  else process_request db req = Raise PermissionError.
Proof.
  unfold match_request. case_decide as Hview; [|done].
  destruct (path_match (path_info req)) as [[word res]|] eqn:Hpath; [|done].
  intros _. case_decide as Hperm.
  - do 2 eexists. by apply (process_request_casts db req word res).
  - by apply process_request_no_perm.
Qed.

Lemma match_request_then_process_request_witness :
  match_request (Request "carol" ["VOTE_VIEW"] "/vote/up/ticket/5") = true
  ∧ process_request [Row "ticket/5" "alice" 1]
      (Request "carol" ["VOTE_VIEW"] "/vote/up/ticket/5")
    = Raise PermissionError.
Proof.
  split; [reflexivity|].
  apply (match_request_then_process_request [Row "ticket/5" "alice" 1]
           (Request "carol" ["VOTE_VIEW"] "/vote/up/ticket/5")).
  reflexivity.
Defined.

(** X11. The response to a cast.  [process_request] never fails on the
    lookup in [image_map].  With [js] it sends the two arrow images of
    the new vote (the up arrow highlighted when the new vote is +1, the
    down arrow when it is -1) and the count as it is after the cast;
    without, it redirects to the normalised resource. *)
Theorem process_request_responds
    (h : host) (db : table) (req : request) (word res : string) (js : bool) :
  casts req word res →
  ∃ db' v,
    process_request db req = Ok (db', v)
    ∧ process_request_response h db req js
      = Return (db',
                if js
                then Send (href_chrome h ("vote/" +:+ (arrows v).1) +:+ ":"
                           +:+ href_chrome h ("vote/" +:+ (arrows v).2) +:+ ":"
                           +:+ str_count db' res)
                else Redirect (normalise_resource res)).
Proof.
  intros Hcasts. pose proof Hcasts as [_ Hpath].
  do 2 eexists. split; [by apply (process_request_casts db req word res)|].
  unfold process_request_response.
  rewrite (process_request_casts db req word res) by done.
  rewrite Hpath. unfold lift, mbind, outcome_bind. cbv beta iota zeta.
  destruct js; [|done].
  rewrite image_map_item_arrows by apply toggled_cases.
  destruct (arrows _) as [up down] eqn:Harrows. cbv beta iota zeta. simpl.
  unfold str_count. cbv zeta.
  rewrite !get_vote_count_total, normalise_resource_twice. done.
Qed.

Lemma process_request_responds_witness :
  casts alice_up "up" "ticket/5"
  ∧ ∃ db' v,
      process_request [Row "ticket/5" "bob" 1] alice_up = Ok (db', v)
      ∧ process_request_response plain_host [Row "ticket/5" "bob" 1] alice_up true
        = Return (db',
                  Send ("/chrome/vote/" +:+ (arrows v).1 +:+ ":"
                        +:+ "/chrome/vote/" +:+ (arrows v).2 +:+ ":"
                        +:+ str_count db' "ticket/5")).
Proof.
  assert (casts alice_up "up" "ticket/5") as Hup.
  { split; [|reflexivity]. apply list_elem_of_In. simpl. auto. }
  split; [exact Hup|].
  apply (process_request_responds plain_host [Row "ticket/5" "bob" 1]
           alice_up "up" "ticket/5" true Hup).
Defined.

(** * Rendering *)

Section rendering.
Implicit Types (db : table) (req : request) (h : host) (s : session).

Lemma str_count_normalised db res :
  str_count db (normalise_resource res) = str_count db res.
Proof.
  unfold str_count. cbv zeta. by rewrite !get_vote_count_total, normalise_resource_twice.
Qed.

Lemma render_voter_Return h db req s :
  get_vote db req (path_info req) = -1 ∨ get_vote db req (path_info req) = 0
  ∨ get_vote db req (path_info req) = 1 →
  ∃ vt s',
    render_voter h db req s = Return (vt, s')
    ∧ arrow_src (voter_up vt)
      = href_chrome h ("vote/" +:+ (arrows (get_vote db req (path_info req))).1)
    ∧ arrow_src (voter_down vt)
      = href_chrome h ("vote/" +:+ (arrows (get_vote db req (path_info req))).2)
    ∧ voter_votes vt = str_count db (path_info req)
    ∧ arrow_href (voter_up vt)
      = (if decide ("VOTE_MODIFY" ∈ perm req)
         then Some (href_vote h "up" (normalise_resource (path_info req)))
         else None)
    ∧ arrow_href (voter_down vt)
      = (if decide ("VOTE_MODIFY" ∈ perm req)
         then Some (href_vote h "down" (normalise_resource (path_info req)))
         else None)
    ∧ voter_warning vt
      = (if decide ("VOTE_MODIFY" ∈ perm req)
         then negb (default false (s !! "shown_vote_message"))
         else false)
    ∧ s' = (if decide ("VOTE_MODIFY" ∈ perm req)
            then <["shown_vote_message" := true]> s
            else s).
Proof.
  intros Hv. unfold render_voter. cbv zeta.
  rewrite get_vote_normalised, str_count_normalised.
  rewrite (image_map_item_arrows _ Hv).
  unfold mbind, outcome_bind.
  destruct (arrows (get_vote db req (path_info req))) as [up down].
  cbv beta iota. case_decide as Hperm.
  - do 2 eexists. split; [reflexivity|]. simpl. repeat split.
    destruct (s !! "shown_vote_message") as [[]|] eqn:Hs; simpl; try done.
    by rewrite insert_id.
  - do 2 eexists. split; [reflexivity|]. simpl. done.
Qed.

Lemma render_voter_KeyError h db req s :
  get_vote db req (path_info req) < -1 ∨ 1 < get_vote db req (path_info req) →
  render_voter h db req s = Throw KeyError.
Proof.
  intros Hv. unfold render_voter. cbv zeta. rewrite get_vote_normalised.
  by rewrite (image_map_item_missing _ Hv).
Qed.

Lemma get_vote_in_range db req res :
  votes_in_range db →
  get_vote db req res = -1 ∨ get_vote db req res = 0 ∨ get_vote db req res = 1.
Proof.
  intros Hr. rewrite get_vote_rows.
  destruct (rows_of db _ _) as [|x l] eqn:Hrows; [by right; left|].
  assert (x ∈ db) as Hx.
  { assert (x ∈ rows_of db (get_reporter_id req) (normalise_resource res)) as Hin
      by (rewrite Hrows; left).
    unfold rows_of in Hin. by apply list_elem_of_filter in Hin as [_ ?]. }
  destruct (Hr x Hx) as [-> | ->]; auto.
Qed.

Lemma process_request_in_range db req db' v :
  process_request db req = Ok (db', v) → votes_in_range db → votes_in_range db'.
Proof.
  intros Hrun Hr.
  destruct (decide ("VOTE_MODIFY" ∈ perm req)) as [Hperm|Hperm];
    [|by rewrite process_request_no_perm in Hrun].
  destruct (path_match (path_info req)) as [[word res]|] eqn:Hpath;
    [|by rewrite process_request_no_match in Hrun].
  rewrite (process_request_casts db req word res) in Hrun by done.
  injection Hrun as <- <-. intros x Hx.
  apply elem_of_app in Hx as [Hx|Hx].
  - apply Hr. unfold Sql.delete in Hx. by apply list_elem_of_filter in Hx as [_ ?].
  - pose proof (toggled_cases (get_vote db req res) word) as Hcases.
    cbv zeta in Hcases. unfold Py.truthy in Hx.
    destruct (Z.eqb_spec (toggled (get_vote db req res)
                            (if decide (word = "up") then 1 else -1)) 0)
      as [H0|H0]; simpl in Hx; [by apply elem_of_nil in Hx|].
    apply list_elem_of_singleton in Hx as ->. simpl. lia.
Qed.

Lemma process_request_unique db req db' v :
  process_request db req = Ok (db', v) → unique_keys db → unique_keys db'.
Proof.
  intros Hrun Hu.
  destruct (decide ("VOTE_MODIFY" ∈ perm req)) as [Hperm|Hperm];
    [|by rewrite process_request_no_perm in Hrun].
  destruct (path_match (path_info req)) as [[word res]|] eqn:Hpath;
    [|by rewrite process_request_no_match in Hrun].
  rewrite (process_request_casts db req word res) in Hrun by done.
  injection Hrun as <- <-.
  eapply set_vote_unique; [exact Hu|]. apply set_vote_rows.
Qed.

Lemma serve_invariant reqs db :
  votes_in_range db → unique_keys db →
  votes_in_range (serve db reqs) ∧ unique_keys (serve db reqs).
Proof.
  revert db. induction reqs as [|req reqs IH]; intros db Hr Hu; simpl; [done|].
  destruct (process_request db req) as [[db' v]|e] eqn:Hrun.
  - apply IH.
    + by eapply process_request_in_range.
    + by eapply process_request_unique.
  - by apply IH.
Qed.

Lemma votes_in_range_fresh : votes_in_range fresh.
Proof. intros x Hx. by apply elem_of_nil in Hx. Qed.

End rendering.

(** X12. However many requests the handler has processed since the table
    was created, with or without failures on the way, every stored vote
    is +1 or -1, there is at most one row for each resource and user, and
    [get_vote] returns -1, 0 or +1. *)
Theorem serve_keeps_votes_in_range (reqs : list request) :
  (∀ x, x ∈ serve fresh reqs → vote x = 1 ∨ vote x = -1)
  ∧ (∀ u r, (length (rows_of (serve fresh reqs) u r) ≤ 1)%nat)
  ∧ (∀ req res, get_vote (serve fresh reqs) req res = -1
                ∨ get_vote (serve fresh reqs) req res = 0
                ∨ get_vote (serve fresh reqs) req res = 1).
Proof.
  destruct (serve_invariant reqs fresh votes_in_range_fresh unique_keys_fresh)
    as [Hr Hu].
  split; [exact Hr|]. split; [exact Hu|].
  intros req res. by apply get_vote_in_range.
Qed.

(** X13. What [render_voter] shows when the vote of the user on the page
    is -1, 0 or +1: it returns normally; the up arrow is highlighted when
    the vote is +1 and the down arrow when it is -1; the count is that of
    the page; the arrows are links to [up] and [down] on the normalised
    path exactly when the user has [VOTE_MODIFY]; the warning is added
    exactly when the user has [VOTE_MODIFY] and the session does not say
    it was shown, and the session says so afterwards. *)
Theorem render_voter_shows (h : host) (db : table) (req : request) (s : session) :
  get_vote db req (path_info req) = -1 ∨ get_vote db req (path_info req) = 0
  ∨ get_vote db req (path_info req) = 1 →
  ∃ vt s',
    render_voter h db req s = Return (vt, s')
    ∧ arrow_src (voter_up vt)
      = href_chrome h ("vote/" +:+ (arrows (get_vote db req (path_info req))).1)
    ∧ arrow_src (voter_down vt)
      = href_chrome h ("vote/" +:+ (arrows (get_vote db req (path_info req))).2)
    ∧ voter_votes vt = str_count db (path_info req)
    ∧ arrow_href (voter_up vt)
      = (if decide ("VOTE_MODIFY" ∈ perm req)
         then Some (href_vote h "up" (normalise_resource (path_info req)))
         else None)
    ∧ arrow_href (voter_down vt)
      = (if decide ("VOTE_MODIFY" ∈ perm req)
         then Some (href_vote h "down" (normalise_resource (path_info req)))
         else None)
    ∧ voter_warning vt
      = (if decide ("VOTE_MODIFY" ∈ perm req)
         then negb (default false (s !! "shown_vote_message"))
         else false)
    ∧ s' = (if decide ("VOTE_MODIFY" ∈ perm req)
            then <["shown_vote_message" := true]> s
            else s).
Proof. apply render_voter_Return. Qed.

(** A page of the wiki, asked for by Alice. *)
Lemma render_voter_shows_witness :
  let page := Request "alice" may_vote "/wiki/Foo" in
  let db := [Row "wiki/Foo" "alice" 1; Row "wiki/Foo" "bob" 1] in
  (get_vote db page (path_info page) = -1 ∨ get_vote db page (path_info page) = 0
   ∨ get_vote db page (path_info page) = 1)
  ∧ ∃ vt s',
      render_voter plain_host db page ∅ = Return (vt, s')
      ∧ arrow_src (voter_up vt) = "/chrome/vote/aupmod.png"
      ∧ arrow_src (voter_down vt) = "/chrome/vote/adowngray.png"
      ∧ voter_votes vt = "+2"
      ∧ arrow_href (voter_up vt) = Some "/vote/up/wiki/Foo"
      ∧ arrow_href (voter_down vt) = Some "/vote/down/wiki/Foo"
      ∧ voter_warning vt = true
      ∧ s' = {["shown_vote_message" := true]}.
Proof.
  intros page db. split; [by right; right|].
  exact (render_voter_shows plain_host db page ∅ (or_intror (or_intror eq_refl))).
Defined.

Section pages.
Implicit Types (h : host) (db : table) (req : request) (s : session)
  (paths : list string).

Lemma render_at_first_match_cons h p paths db req s :
  render_at_first_match h (p :: paths) db req s
  = hit ← re_match h p (path_info req);
    if hit : bool
    then '(v, s') ← render_voter h db req s; Return (Some v, s')
    else render_at_first_match h paths db req s.
Proof. reflexivity. Qed.

(** What the loop does when [render_voter] returns: it stops at the first
    pattern on which [re.match] does not answer [False]. *)
Lemma render_at_first_match_outcome h paths db req s vt s1 :
  render_voter h db req s = Return (vt, s1) →
  match render_at_first_match h paths db req s with
  | Return (Some vt', s') =>
      vt' = vt ∧ s' = s1
      ∧ ∃ before p after,
          paths = before ++ p :: after
          ∧ (∀ q, q ∈ before → re_match h q (path_info req) = Return false)
          ∧ re_match h p (path_info req) = Return true
  | Return (None, s') =>
      s' = s ∧ ∀ q, q ∈ paths → re_match h q (path_info req) = Return false
  | Throw e =>
      ∃ before p after,
        paths = before ++ p :: after
        ∧ (∀ q, q ∈ before → re_match h q (path_info req) = Return false)
        ∧ re_match h p (path_info req) = Throw e
  end.
Proof.
  intros Hrender. induction paths as [|p paths IH].
  - simpl. split; [done|]. intros q Hq. by apply elem_of_nil in Hq.
  - rewrite render_at_first_match_cons.
    destruct (re_match h p (path_info req)) as [[|]|e] eqn:Hp;
      unfold mbind at 1, outcome_bind.
    + rewrite Hrender. unfold mbind, outcome_bind. cbv beta iota.
      split; [done|]. split; [done|]. exists [], p, paths.
      split; [done|]. split; [|done]. intros q Hq. by apply elem_of_nil in Hq.
    + destruct (render_at_first_match h paths db req s) as [[[vt'|] s']|e].
      * destruct IH as (-> & -> & before & q & after & -> & Hbefore & Hq).
        split; [done|]. split; [done|]. exists (p :: before), q, after.
        split; [done|]. split; [|done].
        intros r Hr. apply elem_of_cons in Hr as [->|Hr]; [done|by apply Hbefore].
      * destruct IH as [-> Hnone]. split; [done|].
        intros r Hr. apply elem_of_cons in Hr as [->|Hr]; [done|by apply Hnone].
      * destruct IH as (before & q & after & -> & Hbefore & Hq).
        exists (p :: before), q, after. split; [done|]. split; [|done].
        intros r Hr. apply elem_of_cons in Hr as [->|Hr]; [done|by apply Hbefore].
    + exists [], p, paths. split; [done|]. split; [|done].
      intros q Hq. by apply elem_of_nil in Hq.
Qed.

End pages.

(** X14. On any table the handler has produced, [pre_process_request]
    never fails in [render_voter]: the only exception it raises is one
    [re.match] raises on a voteable path, tried before any path matched.
    It renders the voter, once, when the request has [VOTE_VIEW] and
    [re.match] answers [True] on a path after answering [False] on those
    before it; it renders nothing and leaves the session alone when the
    request lacks [VOTE_VIEW] or [re.match] answers [False] on every
    path. *)
Theorem pre_process_request_on_served_table
    (h : host) (paths : list string) (reqs : list request)
    (req : request) (s : session) :
  match pre_process_request h paths (serve fresh reqs) req s with
  | Return (Some vt, s') =>
      "VOTE_VIEW" ∈ perm req
      ∧ render_voter h (serve fresh reqs) req s = Return (vt, s')
      ∧ ∃ before p after,
          paths = before ++ p :: after
          ∧ (∀ q, q ∈ before → re_match h q (path_info req) = Return false)
          ∧ re_match h p (path_info req) = Return true
  | Return (None, s') =>
      s' = s
      ∧ ("VOTE_VIEW" ∉ perm req
         ∨ ∀ q, q ∈ paths → re_match h q (path_info req) = Return false)
  | Throw e =>
      "VOTE_VIEW" ∈ perm req
      ∧ ∃ before p after,
          paths = before ++ p :: after
          ∧ (∀ q, q ∈ before → re_match h q (path_info req) = Return false)
          ∧ re_match h p (path_info req) = Throw e
  end.
Proof.
  destruct (serve_invariant reqs fresh votes_in_range_fresh unique_keys_fresh)
    as [Hr _].
  destruct (render_voter_Return h (serve fresh reqs) req s
              (get_vote_in_range _ req (path_info req) Hr))
    as (vt & s1 & Hrender & _).
  unfold pre_process_request. case_decide as Hview; [|by split; [|left]].
  pose proof (render_at_first_match_outcome h paths (serve fresh reqs) req s
                vt s1 Hrender) as Hloop.
  destruct (render_at_first_match h paths (serve fresh reqs) req s)
    as [[[vt'|] s']|e].
  - destruct Hloop as (-> & -> & Hhit). done.
  - destruct Hloop as [-> Hnone]. split; [done|]. by right.
  - done.
Qed.

(** X15. [set_vote] accepts a vote the voter cannot show: after a
    [set_vote] on a page with a value other than -1, 0 and +1 that the
    [int] column holds, [render_voter] raises [KeyError] for that user on
    that page. *)
Theorem set_vote_out_of_range_breaks_render_voter
    (h : host) (db : table) (req : request) (s : session) (v : Z) :
  v < -1 ∨ 1 < v →
  fits_int_column v →
  ∃ db', set_vote db req (path_info req) v = Ok db'
         ∧ render_voter h db' req s = Throw KeyError.
Proof.
  intros Hv _. eexists. split; [apply set_vote_rows|].
  apply render_voter_KeyError.
  rewrite (get_vote_set_vote db req (path_info req) v) by apply set_vote_rows.
  exact Hv.
Qed.

Lemma set_vote_out_of_range_breaks_render_voter_witness :
  (2 < -1 ∨ 1 < 2)
  ∧ fits_int_column 2
  ∧ ∃ db', set_vote fresh (Request "alice" may_vote "/wiki/Foo") "/wiki/Foo" 2 = Ok db'
           ∧ render_voter plain_host db' (Request "alice" may_vote "/wiki/Foo") ∅
             = Throw KeyError.
Proof.
  assert (fits_int_column 2) as Hfits by (unfold fits_int_column; lia).
  split; [right; lia|]. split; [exact Hfits|].
  apply (set_vote_out_of_range_breaks_render_voter plain_host fresh
           (Request "alice" may_vote "/wiki/Foo") ∅ 2).
  - right. lia.
  - exact Hfits.
Defined.

(** X16. The warning is shown once in a session: after [render_voter] has
    returned for a user with [VOTE_MODIFY], a later [render_voter] with
    the session it left adds no warning, for any user, page and table,
    and leaves the session as it is. *)
Theorem warning_shown_once
    (h : host) (db db2 : table) (req req2 : request) (s s' s2 : session)
    (vt vt2 : voter) :
  "VOTE_MODIFY" ∈ perm req →
  render_voter h db req s = Return (vt, s') →
  render_voter h db2 req2 s' = Return (vt2, s2) →
  voter_warning vt2 = false ∧ s2 = s'.
Proof.
  intros Hperm Hfirst Hsecond.
  assert (∀ d q t w t', render_voter h d q t = Return (w, t') →
            get_vote d q (path_info q) = -1 ∨ get_vote d q (path_info q) = 0
            ∨ get_vote d q (path_info q) = 1) as Hrange.
  { intros d q t w t' Hrun.
    destruct (decide (get_vote d q (path_info q) < -1
                      ∨ 1 < get_vote d q (path_info q))) as [Hout|Hin]; [|lia].
    by rewrite (render_voter_KeyError h d q t Hout) in Hrun. }
  destruct (render_voter_Return h db req s (Hrange _ _ _ _ _ Hfirst))
    as (w & t & Hw & _ & _ & _ & _ & _ & _ & Ht).
  rewrite Hfirst in Hw. injection Hw as <- <-.
  rewrite decide_True in Ht by done.
  destruct (render_voter_Return h db2 req2 s' (Hrange _ _ _ _ _ Hsecond))
    as (w & t2 & Hw & _ & _ & _ & _ & _ & Hwarn & Ht2).
  rewrite Hsecond in Hw. injection Hw as <- <-.
  assert (s' !! "shown_vote_message" = Some true) as Hshown
    by (rewrite Ht; apply lookup_insert_eq).
  rewrite Hshown in Hwarn. simpl in Hwarn.
  split; [by case_decide|].
  rewrite Ht2. case_decide; [|done]. by apply insert_id.
Qed.

Lemma warning_shown_once_witness :
  let page := Request "alice" may_vote "/wiki/Foo" in
  let other := Request "bob" may_vote "/ticket/5" in
  "VOTE_MODIFY" ∈ perm page
  ∧ (∃ vt, render_voter plain_host fresh page ∅
           = Return (vt, {["shown_vote_message" := true]})
           ∧ voter_warning vt = true)
  ∧ (∃ vt2, render_voter plain_host fresh other {["shown_vote_message" := true]}
            = Return (vt2, {["shown_vote_message" := true]})
            ∧ voter_warning vt2 = false).
Proof.
  intros page other.
  assert ("VOTE_MODIFY" ∈ perm page) as Hperm
    by (apply list_elem_of_In; simpl; auto).
  split; [exact Hperm|]. split; [eexists; split; reflexivity|].
  eexists. split; [reflexivity|].
  eapply (warning_shown_once plain_host fresh fresh page other ∅
            {["shown_vote_message" := true]} {["shown_vote_message" := true]}).
  - exact Hperm.
  - reflexivity.
  - reflexivity.
Defined.

Section links.
Implicit Types (c d : ascii) (s : string).

Lemma contains_lstrip c d s :
  contains d s = false → contains d (Py.lstrip c s) = false.
Proof.
  induction s as [|a s IH]; simpl; [done|].
  destruct (decide (a = d)) as [Ha|Ha]; [done|]. intros Hs.
  case_decide; [by apply IH|]. simpl. by rewrite decide_False.
Qed.

Lemma contains_rstrip c d s :
  contains d s = false → contains d (Py.rstrip c s) = false.
Proof.
  induction s as [|a s IH]; simpl; [done|].
  destruct (decide (a = d)) as [Ha|Ha]; [done|]. intros Hs.
  specialize (IH Hs). destruct (Py.rstrip c s) as [|b r].
  - case_decide; [done|]. simpl. by rewrite decide_False.
  - change (contains d (String a (String b r)))
      with (if decide (a = d) then true else contains d (String b r)).
    by rewrite decide_False.
Qed.

Lemma contains_normalise_resource s :
  contains newline s = false → contains newline (normalise_resource s) = false.
Proof.
  intros Hs. unfold normalise_resource. cbv zeta. case_decide as Hw.
  - by rewrite Hw.
  - unfold Py.strip. by apply contains_rstrip, contains_lstrip.
Qed.

End links.

(** X17. Following a link of the voter changes the vote the voter shows.
    When a user with [VOTE_MODIFY] requests the path of the [up] or the
    [down] link rendered on a page (a page whose path holds no newline),
    [process_request] toggles the vote of the user on that page, and a
    later [render_voter] of the page for the user shows the arrows of the
    new vote and the new count. *)
Theorem cast_from_rendered_link
    (h : host) (db : table) (page click : request) (s : session) (word : string) :
  word = "up" ∨ word = "down" →
  contains newline (path_info page) = false →
  "VOTE_MODIFY" ∈ perm click →
  get_reporter_id click = get_reporter_id page →
  path_info click = vote_path word (normalise_resource (path_info page)) →
  ∃ db' new vt s',
    process_request db click = Ok (db', new)
    ∧ new = toggled (get_vote db page (path_info page))
                    (if decide (word = "up") then 1 else -1)
    ∧ get_vote db' page (path_info page) = new
    ∧ render_voter h db' page s = Return (vt, s')
    ∧ arrow_src (voter_up vt) = href_chrome h ("vote/" +:+ (arrows new).1)
    ∧ arrow_src (voter_down vt) = href_chrome h ("vote/" +:+ (arrows new).2)
    ∧ voter_votes vt = str_count db' (path_info page).
Proof.
  intros Hword Hline Hperm Hid Hpath.
  assert (casts click word (normalise_resource (path_info page))) as Hcasts.
  { split; [done|]. rewrite Hpath.
    by apply path_match_vote_path, contains_normalise_resource. }
  destruct (process_request_step db click word _ Hcasts) as (db' & Hrun & Hget).
  rewrite (get_vote_reporter db click page _ Hid), get_vote_normalised in Hrun.
  rewrite (get_vote_reporter db click page _ Hid),
    (get_vote_reporter db' click page _ Hid), !get_vote_normalised in Hget.
  assert (get_vote db' page (path_info page) = -1
          ∨ get_vote db' page (path_info page) = 0
          ∨ get_vote db' page (path_info page) = 1) as Hrange
    by (rewrite Hget; apply toggled_cases).
  destruct (render_voter_Return h db' page s Hrange)
    as (vt & s' & Hrender & Hup & Hdown & Hvotes & _).
  eexists db', _, vt, s'. split; [exact Hrun|]. split; [reflexivity|].
  split; [exact Hget|]. split; [exact Hrender|].
  rewrite <-Hget. done.
Qed.

Lemma cast_from_rendered_link_witness :
  let page := Request "alice" may_vote "/wiki/" in
  let click := Request "alice" may_vote "/vote/up/wiki/WikiStart" in
  ("up" = "up" ∨ "up" = "down")
  ∧ contains newline (path_info page) = false
  ∧ "VOTE_MODIFY" ∈ perm click
  ∧ get_reporter_id click = get_reporter_id page
  ∧ path_info click = vote_path "up" (normalise_resource (path_info page))
  ∧ ∃ db' new vt s',
      process_request [Row "wiki/WikiStart" "bob" 1] click = Ok (db', new)
      ∧ new = 1
      ∧ get_vote db' page (path_info page) = new
      ∧ render_voter plain_host db' page ∅ = Return (vt, s')
      ∧ arrow_src (voter_up vt) = "/chrome/vote/" +:+ (arrows new).1
      ∧ arrow_src (voter_down vt) = "/chrome/vote/" +:+ (arrows new).2
      ∧ voter_votes vt = str_count db' (path_info page).
Proof.
  intros page click.
  assert ("VOTE_MODIFY" ∈ perm click) as Hperm
    by (apply list_elem_of_In; simpl; auto).
  split; [by left|]. split; [reflexivity|]. split; [exact Hperm|].
  split; [reflexivity|]. split; [reflexivity|].
  exact (cast_from_rendered_link plain_host [Row "wiki/WikiStart" "bob" 1]
           page click ∅ "up" (or_introl eq_refl) eq_refl Hperm eq_refl eq_refl).
Defined.

(** * The schema version *)

Section versions.
Implicit Types (sys : Compat.system) (nm : string) (v version : Z).

Lemma select_value_nil_names sys nm :
  Compat.select_value sys nm = [] → nm ∉ Compat.name <$> sys.
Proof.
  unfold Compat.select_value. intros Hnone Hin.
  apply list_elem_of_fmap in Hin as (r & -> & Hr).
  apply fmap_nil_inv in Hnone.
  by apply (filter_nil_not_elem_of _ _ r Hnone).
Qed.

Lemma select_value_update_same sys nm v :
  Compat.select_value (Compat.update sys nm v) nm
  = (λ _, Compat.Numeral v) <$> Compat.select_value sys nm.
Proof.
  unfold Compat.select_value, Compat.update.
  induction sys as [|r sys IH]; [done|].
  rewrite fmap_cons. destruct (decide (Compat.name r = nm)) as [Hr|Hr].
  - rewrite !filter_cons_True by done. rewrite !fmap_cons. by rewrite IH.
  - rewrite !filter_cons_False by done. apply IH.
Qed.

Lemma select_value_update_other sys nm v nm' :
  nm' ≠ nm →
  Compat.select_value (Compat.update sys nm v) nm' = Compat.select_value sys nm'.
Proof.
  intros Hne. unfold Compat.select_value, Compat.update.
  induction sys as [|r sys IH]; [done|].
  rewrite fmap_cons. destruct (decide (Compat.name r = nm)) as [Hr|Hr].
  - rewrite !filter_cons_False by (simpl; congruence). apply IH.
  - rewrite !filter_cons. case_decide; [|done]. rewrite !fmap_cons. by rewrite IH.
Qed.

Lemma select_value_app sys1 sys2 nm :
  Compat.select_value (sys1 ++ sys2) nm
  = Compat.select_value sys1 nm ++ Compat.select_value sys2 nm.
Proof. unfold Compat.select_value. by rewrite filter_app, fmap_app. Qed.

(** The version read depends on the entry only. *)
Lemma get_database_version_entry sys sys' nm :
  Compat.select_value sys' nm = Compat.select_value sys nm →
  Compat.get_database_version sys' nm = Compat.get_database_version sys nm.
Proof. unfold Compat.get_database_version. by intros ->. Qed.

Lemma set_database_version_entry sys nm cur version :
  Compat.get_database_version sys nm = Return cur →
  ∃ sys',
    Compat.set_database_version sys version nm = Return sys'
    ∧ Compat.get_database_version sys' nm = Return (Some version)
    ∧ ∀ nm', nm' ≠ nm →
        Compat.select_value sys' nm' = Compat.select_value sys nm'.
Proof.
  intros Hget. unfold Compat.set_database_version. rewrite Hget.
  unfold mbind, outcome_bind. unfold Compat.get_database_version in Hget.
  destruct (Compat.select_value sys nm) as [|[n|] vs] eqn:Hsel; [| |done].
  - injection Hget as <-. unfold Compat.insert.
    rewrite decide_False by by apply select_value_nil_names.
    eexists. split; [reflexivity|]. split.
    + unfold Compat.get_database_version.
      rewrite select_value_app, Hsel. unfold Compat.select_value.
      by rewrite filter_cons_True.
    + intros nm' Hne. rewrite select_value_app. unfold Compat.select_value at 2.
      rewrite filter_cons_False by (simpl; congruence). apply app_nil_r.
  - injection Hget as <-. eexists. split; [reflexivity|]. split.
    + unfold Compat.get_database_version.
      by rewrite select_value_update_same, Hsel.
    + intros nm' Hne. by apply select_value_update_other.
Qed.

Lemma needs_upgrade_cases sys version nm cur :
  Compat.get_database_version sys nm = Return cur →
  Compat.needs_upgrade sys version nm
  = if decide (Compat.as_int cur = version) then Return false
    else if decide (Compat.as_int cur < version) then Return true
         else Throw (TracError ("Need to downgrade " +:+ nm +:+ ".")).
Proof.
  intros Hget. unfold Compat.needs_upgrade. rewrite Hget.
  unfold mbind, outcome_bind. repeat case_decide; try done; lia.
Qed.

End versions.

(** X18. [set_database_version] and [get_database_version] round-trip.
    When the version under a name can be read (the entry is missing or
    holds a numeral), [set_database_version] returns normally, whether it
    has to insert or to update; afterwards [get_database_version] returns
    the version set, [needs_upgrade] answers [False] for it, [True] for a
    larger one and raises [TracError] for a smaller one, and the entries
    under other names are as they were. *)
Theorem set_database_version_round_trip
    (sys : Compat.system) (nm : string) (cur : option Z) (version : Z) :
  Compat.get_database_version sys nm = Return cur →
  ∃ sys',
    Compat.set_database_version sys version nm = Return sys'
    ∧ Compat.get_database_version sys' nm = Return (Some version)
    ∧ (∀ wanted,
         Compat.needs_upgrade sys' wanted nm
         = if decide (version = wanted) then Return false
           else if decide (version < wanted) then Return true
                else Throw (TracError ("Need to downgrade " +:+ nm +:+ ".")))
    ∧ ∀ nm', nm' ≠ nm →
        Compat.get_database_version sys' nm' = Compat.get_database_version sys nm'.
Proof.
  intros Hget.
  destruct (set_database_version_entry sys nm cur version Hget)
    as (sys' & Hset & Hget' & Hother).
  exists sys'. split; [done|]. split; [done|]. split.
  - intros wanted. by rewrite (needs_upgrade_cases sys' wanted nm (Some version)).
  - intros nm' Hne. by apply get_database_version_entry, Hother.
Qed.

Lemma set_database_version_round_trip_witness :
  let sys := [Compat.SystemRow "database_version" (Compat.Numeral 29)] in
  Compat.get_database_version sys "vote_version" = Return None
  ∧ ∃ sys',
      Compat.set_database_version sys 2 "vote_version" = Return sys'
      ∧ Compat.get_database_version sys' "vote_version" = Return (Some 2)
      ∧ (∀ wanted,
           Compat.needs_upgrade sys' wanted "vote_version"
           = if decide (2 = wanted) then Return false
             else if decide (2 < wanted) then Return true
                  else Throw (TracError "Need to downgrade vote_version."))
      ∧ ∀ nm', nm' ≠ "vote_version" →
          Compat.get_database_version sys' nm' = Compat.get_database_version sys nm'.
Proof.
  intros sys. split; [reflexivity|].
  exact (set_database_version_round_trip sys "vote_version" None 2 eq_refl).
Defined.

(** X19. A missing entry counts as version 0, since [False] is the
    integer 0 in a comparison: when [system] has no entry under the
    name, [needs_upgrade] answers [True] for a positive version, [False]
    for version 0, and raises [TracError] for a negative one. *)
Theorem needs_upgrade_without_entry (sys : Compat.system) (nm : string) (version : Z) :
  Compat.select_value sys nm = [] →
  Compat.needs_upgrade sys version nm
  = if decide (0 < version) then Return true
    else if decide (version = 0) then Return false
         else Throw (TracError ("Need to downgrade " +:+ nm +:+ ".")).
Proof.
  intros Hnone. rewrite (needs_upgrade_cases sys version nm None).
  - unfold Compat.as_int. simpl. repeat case_decide; try done; lia.
  - unfold Compat.get_database_version. by rewrite Hnone.
Qed.

Lemma needs_upgrade_without_entry_witness :
  Compat.select_value [Compat.SystemRow "database_version" (Compat.Numeral 29)]
    "vote_version" = []
  ∧ Compat.needs_upgrade [Compat.SystemRow "database_version" (Compat.Numeral 29)]
      0 "vote_version" = Return false.
Proof.
  split; [reflexivity|].
  exact (needs_upgrade_without_entry
           [Compat.SystemRow "database_version" (Compat.Numeral 29)]
           "vote_version" 0 eq_refl).
Defined.

Section upgrades.
Context {D : Type}.
Implicit Types (d : Compat.database D) (upgrades : Compat.package D)
  (pkg : option (Compat.package D)) (nm pkg_name : string) (steps : list Z).

Lemma upgrade_steps_app pkg pkg_name nm steps1 steps2 d :
  Compat.upgrade_steps pkg pkg_name nm (steps1 ++ steps2) d
  = d' ← Compat.upgrade_steps pkg pkg_name nm steps1 d;
    Compat.upgrade_steps pkg pkg_name nm steps2 d'.
Proof.
  revert d. induction steps1 as [|i steps1 IH]; intros d; simpl; [done|].
  destruct (Compat.upgrade_step pkg pkg_name nm i d) as [d'|e]; simpl; [|done].
  apply IH.
Qed.

Lemma upgrade_step_ok upgrades pkg_name nm i d cur :
  Compat.get_database_version (Compat.db_system d) nm = Return cur →
  Compat.script_keeps_entry upgrades nm i →
  ∃ d', Compat.upgrade_step (Some upgrades) pkg_name nm i d = Return d'
        ∧ Compat.get_database_version (Compat.db_system d') nm = Return (Some i).
Proof.
  intros Hget (f & Hf & Hkeeps). destruct (Hkeeps d) as (d1 & Hrun & Hentry).
  unfold Compat.upgrade_step. rewrite Hf, Hrun.
  unfold mbind, outcome_bind.
  destruct (set_database_version_entry (Compat.db_system d1) nm cur i)
    as (sys' & Hset & Hget' & _).
  { by rewrite (get_database_version_entry _ _ _ Hentry). }
  rewrite Hset. eexists. split; [reflexivity|]. done.
Qed.

Lemma upgrade_steps_ok upgrades pkg_name nm steps d cur :
  Compat.get_database_version (Compat.db_system d) nm = Return cur →
  (∀ i, i ∈ steps → Compat.script_keeps_entry upgrades nm i) →
  ∃ d', Compat.upgrade_steps (Some upgrades) pkg_name nm steps d = Return d'
        ∧ Compat.get_database_version (Compat.db_system d') nm
          = Return (from_option Some cur (last steps)).
Proof.
  revert d cur. induction steps as [|i steps IH]; intros d cur Hget Hok.
  - by exists d.
  - destruct (upgrade_step_ok upgrades pkg_name nm i d cur Hget)
      as (d1 & Hstep & Hget1); [apply Hok; left|].
    change (Compat.upgrade_steps (Some upgrades) pkg_name nm (i :: steps) d)
      with (d' ← Compat.upgrade_step (Some upgrades) pkg_name nm i d;
            Compat.upgrade_steps (Some upgrades) pkg_name nm steps d').
    rewrite Hstep. unfold mbind, outcome_bind.
    destruct (IH d1 (Some i) Hget1) as (d' & Hrun & Hget');
      [intros j Hj; apply Hok; by right|].
    exists d'. split; [done|]. rewrite Hget', last_cons.
    by destruct (last steps).
Qed.

Lemma last_range a b : a < b → last (Compat.range a b) = Some (b - 1).
Proof.
  intros Hab. unfold Compat.range. rewrite last_lookup, length_seqZ.
  rewrite lookup_seqZ_lt by lia. f_equal. lia.
Qed.

Lemma elem_of_range a b i : i ∈ Compat.range a b ↔ a ≤ i < b.
Proof. unfold Compat.range. rewrite elem_of_seqZ. lia. Qed.

Lemma range_split a j b :
  a ≤ j < b → Compat.range a b = Compat.range a j ++ j :: Compat.range (j + 1) b.
Proof.
  intros Hj. unfold Compat.range.
  replace (b - a) with ((j - a) + (b - j)) by lia.
  rewrite seqZ_app by lia. f_equal.
  replace (a + (j - a)) with j by lia.
  rewrite (seqZ_cons j) by lia. f_equal. f_equal; lia.
Qed.

End upgrades.

(** X20. [upgrade] reaches the version asked for.  When the version under
    the name can be read and is not above the one asked for, and every
    module from the one after it up to the one asked for exists and its
    [do_upgrade] returns normally without touching the entry, [upgrade]
    returns normally; afterwards [needs_upgrade] answers [False] and,
    when there was anything to do, [get_database_version] returns the
    version asked for. *)
Theorem upgrade_reaches_version
    {D : Type} (upgrades : Compat.package D) (pkg_name nm : string)
    (version : Z) (d : Compat.database D) (cur : option Z) :
  Compat.get_database_version (Compat.db_system d) nm = Return cur →
  Compat.as_int cur ≤ version →
  (∀ i, Compat.as_int cur < i ≤ version → Compat.script_keeps_entry upgrades nm i) →
  ∃ d',
    Compat.upgrade (Some upgrades) pkg_name version nm d = Return d'
    ∧ Compat.needs_upgrade (Compat.db_system d') version nm = Return false
    ∧ Compat.get_database_version (Compat.db_system d') nm
      = Return (if decide (Compat.as_int cur < version) then Some version else cur).
Proof.
  intros Hget Hle Hok. unfold Compat.upgrade. rewrite Hget.
  unfold mbind at 1, outcome_bind.
  destruct (upgrade_steps_ok upgrades pkg_name nm
              (Compat.range (Compat.as_int cur + 1) (version + 1)) d cur Hget)
    as (d' & Hrun & Hget').
  { intros i Hi. apply Hok. apply elem_of_range in Hi. lia. }
  exists d'. split; [done|].
  assert (Compat.get_database_version (Compat.db_system d') nm
          = Return (if decide (Compat.as_int cur < version) then Some version else cur))
    as Hfinal.
  { rewrite Hget'. case_decide as Hlt.
    - rewrite last_range by lia. simpl. do 2 f_equal. lia.
    - unfold Compat.range. by rewrite seqZ_nil by lia. }
  split; [|done].
  rewrite (needs_upgrade_cases _ version nm _ Hfinal).
  case_decide as Hlt; simpl.
  - by rewrite decide_True.
  - rewrite decide_True; [done|lia].
Qed.

(** A package whose modules do nothing, for every version. *)
Lemma upgrade_reaches_version_witness :
  let idle : Compat.package unit := λ _, Some (λ d, Return d) in
  let d := Compat.Database
             [Compat.SystemRow "database_version" (Compat.Numeral 29)] () in
  Compat.get_database_version (Compat.db_system d) "vote_version" = Return None
  ∧ Compat.as_int None ≤ 3
  ∧ (∀ i, Compat.as_int None < i ≤ 3 →
          Compat.script_keeps_entry idle "vote_version" i)
  ∧ ∃ d',
      Compat.upgrade (Some idle) "tracvote.upgrades" 3 "vote_version" d = Return d'
      ∧ Compat.needs_upgrade (Compat.db_system d') 3 "vote_version" = Return false
      ∧ Compat.get_database_version (Compat.db_system d') "vote_version"
        = Return (Some 3).
Proof.
  intros idle d.
  assert (∀ i, Compat.as_int None < i ≤ 3 →
               Compat.script_keeps_entry idle "vote_version" i) as Hok.
  { intros i _. eexists. split; [reflexivity|]. intros d0. by exists d0. }
  split; [reflexivity|]. split; [by vm_compute|]. split; [exact Hok|].
  exact (upgrade_reaches_version idle "tracvote.upgrades" "vote_version" 3 d None
           eq_refl ltac:(by vm_compute) Hok).
Defined.

(** X21. [upgrade] stops at the first module that is missing.  When the
    modules below [db<j>] exist and behave and [db<j>] does not exist,
    with [j] among the versions to go through, [upgrade] raises
    [TracError] naming [db<j>.py]. *)
Theorem upgrade_stops_at_missing_module
    {D : Type} (upgrades : Compat.package D) (pkg_name nm : string)
    (version j : Z) (d : Compat.database D) (cur : option Z) :
  Compat.get_database_version (Compat.db_system d) nm = Return cur →
  Compat.as_int cur < j ≤ version →
  upgrades j = None →
  (∀ i, Compat.as_int cur < i < j → Compat.script_keeps_entry upgrades nm i) →
  Compat.upgrade (Some upgrades) pkg_name version nm d
  = Throw (TracError ("No upgrade module db" +:+ pretty j +:+ ".py")).
Proof.
  intros Hget Hj Hmissing Hok. unfold Compat.upgrade. rewrite Hget.
  unfold mbind at 1, outcome_bind.
  rewrite (range_split (Compat.as_int cur + 1) j (version + 1)) by lia.
  rewrite upgrade_steps_app.
  destruct (upgrade_steps_ok upgrades pkg_name nm
              (Compat.range (Compat.as_int cur + 1) j) d cur Hget)
    as (d1 & Hrun & _).
  { intros i Hi. apply Hok. apply elem_of_range in Hi. lia. }
  rewrite Hrun. unfold mbind at 1, outcome_bind.
  change (Compat.upgrade_steps (Some upgrades) pkg_name nm
            (j :: Compat.range (j + 1) (version + 1)) d1)
    with (d' ← Compat.upgrade_step (Some upgrades) pkg_name nm j d1;
          Compat.upgrade_steps (Some upgrades) pkg_name nm
            (Compat.range (j + 1) (version + 1)) d').
  unfold Compat.upgrade_step. by rewrite Hmissing.
Qed.

(** A package with the modules [db1] and [db2] only. *)
Lemma upgrade_stops_at_missing_module_witness :
  let two : Compat.package unit :=
    λ i, if decide (i ≤ 2) then Some (λ d, Return d) else None in
  let d := Compat.Database [Compat.SystemRow "vote_version" (Compat.Numeral 1)] () in
  Compat.get_database_version (Compat.db_system d) "vote_version" = Return (Some 1)
  ∧ Compat.as_int (Some 1) < 3 ≤ 5
  ∧ two 3 = None
  ∧ (∀ i, Compat.as_int (Some 1) < i < 3 →
          Compat.script_keeps_entry two "vote_version" i)
  ∧ Compat.upgrade (Some two) "tracvote.upgrades" 5 "vote_version" d
    = Throw (TracError "No upgrade module db3.py").
Proof.
  intros two d.
  assert (∀ i, Compat.as_int (Some 1) < i < 3 →
               Compat.script_keeps_entry two "vote_version" i) as Hok.
  { intros i Hi. simpl in Hi. eexists. split.
    - unfold two. rewrite decide_True by lia. reflexivity.
    - intros d0. by exists d0. }
  split; [reflexivity|]. split; [by vm_compute|]. split; [reflexivity|].
  split; [exact Hok|].
  exact (upgrade_stops_at_missing_module two "tracvote.upgrades" "vote_version"
           5 3 d (Some 1) eq_refl ltac:(by vm_compute) eq_refl Hok).
Defined.

(** X22. [upgrade] imports the package only when there is something to
    do.  When the version under the name can be read: if it is below the
    version asked for and the package cannot be imported, [upgrade]
    raises [TracError] naming the package; if it is not below, [upgrade]
    returns normally and changes nothing, whatever the package. *)
Theorem upgrade_imports_when_needed
    {D : Type} (pkg_name nm : string) (version : Z)
    (d : Compat.database D) (cur : option Z) :
  Compat.get_database_version (Compat.db_system d) nm = Return cur →
  if decide (Compat.as_int cur < version)
  then Compat.upgrade None pkg_name version nm d
       = Throw (TracError ("No upgrade package " +:+ pkg_name))
  else ∀ pkg, Compat.upgrade pkg pkg_name version nm d = Return d.
Proof.
  intros Hget. unfold Compat.upgrade. rewrite Hget.
  unfold mbind at 1, outcome_bind. unfold Compat.range. case_decide as Hlt.
  - by rewrite seqZ_cons by lia.
  - intros pkg. unfold mbind at 1, outcome_bind. by rewrite seqZ_nil by lia.
Qed.

Lemma upgrade_imports_when_needed_witness :
  let d := Compat.Database [Compat.SystemRow "vote_version" (Compat.Numeral 2)] () in
  Compat.get_database_version (Compat.db_system d) "vote_version" = Return (Some 2)
  ∧ Compat.upgrade None "tracvote.upgrades" 3 "vote_version" d
    = Throw (TracError "No upgrade package tracvote.upgrades").
Proof.
  intros d. split; [reflexivity|].
  exact (upgrade_imports_when_needed "tracvote.upgrades" "vote_version" 3 d (Some 2)
           eq_refl).
Defined.
